(** * The client-side interception cache of the dashboard (service worker)

    The repository has two implementations of the worker:
    - [frontend/src/service-worker.ts]    (module [TS] below), and
    - [frontend/public/service-worker.js] (module [JS] below), the file that
      [ServiceWorkerRegistration.tsx] registers under [/service-worker.js].

    Both are embedded over one model of the host (CacheStorage, Cache, fetch
    and the promise job queue).  Awaited promise chains are run to completion
    inside the handler; promise chains that nobody awaits are kept as pending
    [Job]s in the host state and are run by [run_job]. *)

From Stdlib Require Import List String ZArith Bool Arith Lia.
Import ListNotations.
Local Open Scope string_scope.

(** ** Requests and responses, as the host hands them to the worker *)

(** [new URL(req.url)]: the fields the workers read, [protocol] and [origin],
    and the two parts of the whole URL: the URL without its fragment, which
    is what the host compares when it matches cache entries, and the
    fragment. *)
Record URL := mkURL {
  protocol     : string;   (* with the trailing colon, as in [url.protocol] *)
  origin       : string;
  href_no_hash : string;   (* the URL serialized without its fragment *)
  hash         : string    (* [url.hash]: empty, or '#' and the fragment *)
}.

(** [url.href] *)
Definition href (u : URL) : string := href_no_hash u ++ hash u.

Record Request := mkRequest {
  method : string;
  url    : URL
}.

(** [Response.type] *)
Inductive ResponseType :=
| basic | cors | default | error | opaque | opaqueredirect.

Record Response := mkResponse {
  status     : Z;
  statusText : string;
  type       : ResponseType;
  body       : string
}.

(** [response.ok]: the status is in the range 200..299. *)
Definition ok (r : Response) : bool :=
  ((200 <=? status r) && (status r <=? 299))%Z.

Definition is_basic (r : Response) : bool :=
  match type r with basic => true | _ => false end.

Definition ResponseType_eq_dec (a b : ResponseType) : {a = b} + {a <> b}.
Proof. decide equality. Defined.

Definition URL_eq_dec (a b : URL) : {a = b} + {a <> b}.
Proof. decide equality; apply string_dec. Defined.

Definition Request_eq_dec (a b : Request) : {a = b} + {a <> b}.
Proof. decide equality; [apply URL_eq_dec | apply string_dec]. Defined.

Definition Response_eq_dec (a b : Response) : {a = b} + {a <> b}.
Proof.
  decide equality;
    [apply string_dec | apply ResponseType_eq_dec | apply string_dec | apply Z.eq_dec].
Defined.

(** ** The Cache Store: CacheStorage and Cache *)

(** A [Cache] is the host's request/response list, in insertion order. *)
Definition Cache := list (Request * Response).

(** [CacheStorage]: the named caches of the origin, in creation order. *)
Definition CacheStorage := list (string * Cache).

(** Request matching of [cache.match] with default options: the query must be
    a GET request and the URLs must be equal, their fragments excluded. *)
Definition request_matches (query key : Request) : bool :=
  (method query =? "GET") && (href_no_hash (url query) =? href_no_hash (url key)).

(** [cache.match(req)]: the first matching entry, or [undefined]. *)
Fixpoint cache_match (c : Cache) (req : Request) : option Response :=
  match c with
  | [] => None
  | (k, v) :: rest => if request_matches req k then Some v else cache_match rest req
  end.

(** The store update of [cache.put(req, resp)]: the entries whose URL equals
    that of the request, fragments excluded, are removed and the new pair is
    appended. *)
Definition cache_store (c : Cache) (req : Request) (resp : Response) : Cache :=
  (filter (fun kv => negb (href_no_hash (url req) =? href_no_hash (url (fst kv)))) c
     ++ [(req, resp)])%list.

Fixpoint get_cache (cs : CacheStorage) (name : string) : option Cache :=
  match cs with
  | [] => None
  | (n, c) :: rest => if n =? name then Some c else get_cache rest name
  end.

Fixpoint set_cache (cs : CacheStorage) (name : string) (c : Cache) : CacheStorage :=
  match cs with
  | [] => [(name, c)]
  | (n, c0) :: rest =>
      if n =? name then (n, c) :: rest else (n, c0) :: set_cache rest name c
  end.

(** The entries of a named cache; a cache that does not exist has none. *)
Definition entries (cs : CacheStorage) (name : string) : Cache :=
  match get_cache cs name with Some c => c | None => [] end.

(** [caches.keys()] *)
Definition cache_names (cs : CacheStorage) : list string := map fst cs.

(** The store update of [caches.delete(name)]. *)
Definition delete_cache (cs : CacheStorage) (name : string) : CacheStorage :=
  filter (fun nc => negb (fst nc =? name)) cs.

(** [caches.match(req)]: the caches are searched in creation order. *)
Fixpoint storage_match (cs : CacheStorage) (req : Request) : option Response :=
  match cs with
  | [] => None
  | (_, c) :: rest =>
      match cache_match c req with
      | Some v => Some v
      | None => storage_match rest req
      end
  end.

(** ** The host: network, store faults and the promise job queue

    The host calls that can reject are [fetch] (no response obtainable) and
    the writes [cache.put], [cache.add] and [cache.addAll] (quota, invalid
    scheme, a response that is not ok).  [caches.open], [cache.match],
    [caches.match], [caches.keys] and [caches.delete] always fulfil, as the
    Cache interface defines them: open creates a missing cache, match answers
    undefined when nothing matches, delete answers a boolean. *)

(** What the worker cannot control.  Both oracles are indexed by the time of
    the call, the number of host effects performed before it. *)
Record World := mkWorld {
  location   : URL;                                   (* [self.location] *)
  network    : nat -> Request -> option Response;     (* [None]: fetch rejects *)
  store_full : nat -> Request -> Response -> bool     (* [true]: the write rejects *)
}.

(** Reasons a promise rejects. *)
Inductive Exn :=
| NetworkFailure      (* fetch: no response obtainable *)
| BadStatus           (* cache.add / cache.addAll: response not ok *)
| WriteFailure.       (* cache.put: quota exceeded, invalid scheme, ... *)

(** What the host sees the worker do, in order: its calls with an effect
    outside the worker, and the rejections of promises that no handler
    observes. *)
Inductive Effect :=
| Fetched (req : Request)
| Put (name : string) (req : Request) (resp : Response) (stored : bool)
| SkippedWaiting
| ClaimedClients
| Unhandled (e : Exn).

(** The host state seen by a worker whose detached promise chains are
    described by [J]. *)
Record Host (J : Type) := mkHost {
  caches   : CacheStorage;
  journal  : list Effect;
  detached : list J
}.
Arguments mkHost {J}.
Arguments caches {J}.
Arguments journal {J}.
Arguments detached {J}.

Inductive Result (A : Type) :=
| Fulfilled (a : A)
| Rejected (e : Exn).
Arguments Fulfilled {A}.
Arguments Rejected {A}.

(** Promise chains that are awaited: state passing with rejection. *)
Definition SW (J A : Type) := World -> Host J -> Result A * Host J.

Definition ret {J A} (a : A) : SW J A := fun _ h => (Fulfilled a, h).

Definition throw {J A} (e : Exn) : SW J A := fun _ h => (Rejected e, h).

Definition bind {J A B} (m : SW J A) (k : A -> SW J B) : SW J B :=
  fun w h =>
    match m w h with
    | (Fulfilled a, h') => k a w h'
    | (Rejected e, h') => (Rejected e, h')
    end.

(** [try { m } catch (e) { handler e }], and [m.catch(handler)]. *)
Definition try_catch {J A} (m : SW J A) (handler : Exn -> SW J A) : SW J A :=
  fun w h =>
    match m w h with
    | (Fulfilled a, h') => (Fulfilled a, h')
    | (Rejected e, h') => handler e w h'
    end.

Declare Scope sw_scope.
Delimit Scope sw_scope with sw.
Notation "x <- m ;; k" := (bind m (fun x => k))
  (at level 61, m at next level, right associativity) : sw_scope.
Notation "m ;; k" := (bind m (fun _ => k))
  (at level 61, right associativity) : sw_scope.
Local Open Scope sw_scope.

Definition now_ {J} (h : Host J) : nat := List.length (journal h).

Definition record {J} (e : Effect) (h : Host J) : Host J :=
  mkHost (caches h) (journal h ++ [e])%list (detached h).

(** [caches.open(name)]: the cache is created when it does not exist; the
    result stands for the cache object. *)
Definition caches_open {J} (name : string) : SW J string :=
  fun _ h =>
    match get_cache (caches h) name with
    | Some _ => (Fulfilled name, h)
    | None => (Fulfilled name,
               mkHost (set_cache (caches h) name []) (journal h) (detached h))
    end.

Definition cache_lookup {J} (cache : string) (req : Request) : SW J (option Response) :=
  fun _ h => (Fulfilled (cache_match (entries (caches h) cache) req), h).

Definition caches_match {J} (req : Request) : SW J (option Response) :=
  fun _ h => (Fulfilled (storage_match (caches h) req), h).

Definition caches_keys {J} : SW J (list string) :=
  fun _ h => (Fulfilled (cache_names (caches h)), h).

Definition caches_delete {J} (name : string) : SW J unit :=
  fun _ h =>
    (Fulfilled tt, mkHost (delete_cache (caches h) name) (journal h) (detached h)).

(** [cache.put(req, resp)] *)
Definition cache_put {J} (cache : string) (req : Request) (resp : Response) : SW J unit :=
  fun w h =>
    if store_full w (now_ h) req resp
    then (Rejected WriteFailure, record (Put cache req resp false) h)
    else (Fulfilled tt,
          record (Put cache req resp true)
            (mkHost (set_cache (caches h) cache
                       (cache_store (entries (caches h) cache) req resp))
                    (journal h) (detached h))).

(** [fetch(req)] in two halves: the call puts the request on the wire and
    names it by the time of the call; the promise settles later. *)
Definition fetch_dispatch {J} (req : Request) : SW J nat :=
  fun _ h => (Fulfilled (now_ h), record (Fetched req) h).

Definition fetch_settle {J} (sent : nat) (req : Request) : SW J Response :=
  fun w h =>
    match network w sent req with
    | Some r => (Fulfilled r, h)
    | None => (Rejected NetworkFailure, h)
    end.

(** [await fetch(req)] *)
Definition fetch {J} (req : Request) : SW J Response :=
  sent <- fetch_dispatch req ;; fetch_settle sent req.

(** A promise chain that is started and not awaited. *)
Definition detach {J} (j : J) : SW J unit :=
  fun _ h => (Fulfilled tt, mkHost (caches h) (journal h) (detached h ++ [j])%list).

Definition effect {J} (e : Effect) : SW J unit :=
  fun _ h => (Fulfilled tt, record e h).

(** The request the host builds from a root-relative URL string without
    fragment, as those of the PreloadSets are, resolved against the worker. *)
Definition request_of_url (w : World) (path : string) : Request :=
  mkRequest "GET"
    (mkURL (protocol (location w)) (origin (location w))
           (origin (location w) ++ path) "").

(** [cache.add(url)] in two halves, as [fetch]: the call puts the request on
    the wire; when the response has arrived it is rejected unless ok, and
    stored. *)
Definition cache_add_dispatch {J} (path : string) : SW J nat :=
  fun w => fetch_dispatch (request_of_url w path) w.

Definition cache_add_settle {J} (cache : string) (path : string) (sent : nat) : SW J unit :=
  fun w =>
    (let req := request_of_url w path in
     r <- fetch_settle sent req ;;
     if ok r then cache_put cache req r else throw BadStatus) w.

Fixpoint for_each {J A} (f : A -> SW J unit) (xs : list A) : SW J unit :=
  match xs with
  | [] => ret tt
  | x :: rest => f x ;; for_each f rest
  end.

Fixpoint collect {J A B} (f : A -> SW J B) (xs : list A) : SW J (list B) :=
  match xs with
  | [] => ret []
  | x :: rest => y <- f x ;; ys <- collect f rest ;; ret (y :: ys)
  end.

(** [cache.addAll(urls)]: every request is sent; if any fetch rejects or any
    response is not ok nothing is stored; the writes are one batch, undone
    when one of them fails. *)
Definition cache_addAll {J} (cache : string) (paths : list string) : SW J unit :=
  fun w =>
    (let reqs := map (request_of_url w) paths in
     sents <- collect fetch_dispatch reqs ;;
     resps <- collect (fun sr => fetch_settle (fst sr) (snd sr)) (combine sents reqs) ;;
     if forallb ok resps
     then fun w h =>
            match for_each (fun rr => cache_put cache (fst rr) (snd rr))
                           (combine reqs resps) w h with
            | (Fulfilled u, h') => (Fulfilled u, h')
            | (Rejected e, h') =>
                (Rejected e, mkHost (caches h) (journal h') (detached h'))
            end
     else throw BadStatus) w.

(** What the fetch listener leaves the browser with. *)
Inductive Handled :=
| PassThrough                          (* returned without [respondWith] *)
| Responded (r : Result Response).     (* the promise given to [respondWith] *)

Definition respondWith {J} (engine : SW J Response) : World -> Host J -> Handled * Host J :=
  fun w h => let (r, h') := engine w h in (Responded r, h').

(** The policy engine ran exactly when [respondWith] was called. *)
Definition engine_invoked (o : Handled) : bool :=
  match o with PassThrough => false | Responded _ => true end.

(** A promise that is neither awaited nor returned nor given a handler: it
    runs, the code around it goes on as if it had fulfilled, and its
    rejection is caught by nobody: the host reports it as unhandled. *)
Definition unobserved {J} (m : SW J unit) : SW J unit :=
  fun w h =>
    match m w h with
    | (Fulfilled a, h') => (Fulfilled a, h')
    | (Rejected e, h') => (Fulfilled tt, record (Unhandled e) h')
    end.

(** The listeners a worker script registers, and how the promise chains it
    leaves behind continue. *)
Record Worker := mkWorker {
  Job         : Type;
  on_install  : SW Job unit;
  on_activate : SW Job unit;
  on_fetch    : Request -> World -> Host Job -> Handled * Host Job;
  run_job     : Job -> SW Job unit
}.

(** ** frontend/src/service-worker.ts *)
Module TS.

Definition CACHE_NAME : string := "nexa-security-cache-v1".

Definition urlsToCache : list string := ["/api/network/map"; "/api/scans"].

(** The only chain left running: [fetch(req).then(...).catch(...)] of the
    HIT branch, for the request sent at time [sent]. *)
Inductive Job :=
| Revalidate (req : Request) (sent : nat).

Definition install_of (urls : list string) : SW Job unit :=
  try_catch
    (cache <- caches_open CACHE_NAME ;;
     cache_addAll cache urls)
    (fun _ => ret tt).

Definition install : SW Job unit := install_of urlsToCache.

(** The script registers no 'activate' listener: the event runs no code. *)
Definition activate : SW Job unit := ret tt.

(** [networkResponse && networkResponse.ok && networkResponse.type === 'basic'];
    a Response object is always truthy. *)
Definition cacheable (networkResponse : Response) : bool :=
  ok networkResponse && is_basic networkResponse.

Definition unavailable : Response :=
  mkResponse 503 "Service Unavailable" default
             "Network request failed and no cache available".

(** The async function given to [respondWith]. *)
Definition handle (req : Request) : SW Job Response :=
  cache <- caches_open CACHE_NAME ;;
  cached <- cache_lookup cache req ;;
  match cached with
  | Some cached =>
      sent <- fetch_dispatch req ;;
      detach (Revalidate req sent) ;;
      ret cached
  | None =>
      try_catch
        (networkResponse <- fetch req ;;
         (if cacheable networkResponse
          then try_catch (cache_put cache req networkResponse) (fun _ => ret tt)
          else ret tt) ;;
         ret networkResponse)
        (fun _ => ret unavailable)
  end.

Definition fetch_listener (req : Request) : World -> Host Job -> Handled * Host Job :=
  fun w h =>
    let url := url req in
    if negb (method req =? "GET") then (PassThrough, h)
    else if negb (protocol url =? "http:") && negb (protocol url =? "https:")
    then (PassThrough, h)
    else if negb (origin url =? origin (location w)) then (PassThrough, h)
    else respondWith (handle req) w h.

Definition run_job (j : Job) : SW Job unit :=
  match j with
  | Revalidate req sent =>
      try_catch
        (networkResponse <- fetch_settle sent req ;;
         if cacheable networkResponse
         then try_catch (cache_put CACHE_NAME req networkResponse) (fun _ => ret tt)
         else ret tt)
        (fun _ => ret tt)
  end.

Definition worker : Worker :=
  mkWorker Job install activate fetch_listener run_job.

End TS.

(** ** frontend/public/service-worker.js *)
Module JS.

Definition CACHE_NAME : string := "nexa-security-cache-v1".

Definition urlsToCache : list string := ["/"; "/manifest.json"].

(** Chains left running: the revalidation of the HIT branch and the
    [caches.open(CACHE_NAME).then(put)] of the MISS branch. *)
Inductive Job :=
| Revalidate (req : Request) (sent : nat)
| Store (req : Request) (responseToCache : Response).

(** [cache.add(url).catch(...)] once the request [fst su] for the URL
    [snd su] is on the wire. *)
Definition add_caught (cache : string) (su : nat * string) : SW Job unit :=
  try_catch (cache_add_settle cache (snd su) (fst su)) (fun _ => ret tt).

(** The install listener.  [urlsToCache.map] makes every [cache.add] call,
    so every request is sent, before any response is handled; the chains
    then settle, here in the order of the list, and [Promise.allSettled]
    waits for all of them. *)
Definition install_of (urls : list string) : SW Job unit :=
  try_catch
    (cache <- caches_open CACHE_NAME ;;
     sents <- collect cache_add_dispatch urls ;;
     for_each (add_caught cache) (combine sents urls) ;;
     effect SkippedWaiting)
    (fun _ => ret tt).

Definition install : SW Job unit := install_of urlsToCache.

Definition activate : SW Job unit :=
  cacheNames <- caches_keys ;;
  for_each (fun cacheName =>
              if negb (cacheName =? CACHE_NAME)
              then caches_delete cacheName
              else ret tt) cacheNames ;;
  effect ClaimedClients.

(** The promise given to [respondWith]. *)
Definition handle (req : Request) : SW Job Response :=
  response <- caches_match req ;;
  match response with
  | Some response =>
      sent <- fetch_dispatch req ;;
      detach (Revalidate req sent) ;;
      ret response
  | None =>
      try_catch
        (response <- fetch req ;;
         if negb (status response =? 200)%Z || negb (is_basic response)
         then ret response
         else (detach (Store req response) ;; ret response))
        (fun error => throw error)
  end.

Definition fetch_listener (req : Request) : World -> Host Job -> Handled * Host Job :=
  fun w h =>
    if negb (method req =? "GET") then (PassThrough, h)
    else respondWith (handle req) w h.

Definition run_job (j : Job) : SW Job unit :=
  match j with
  | Revalidate req sent =>
      try_catch
        (networkResponse <- fetch_settle sent req ;;
         if (status networkResponse =? 200)%Z
         then unobserved (cache <- caches_open CACHE_NAME ;;
                          cache_put cache req networkResponse)
         else ret tt)
        (fun _ => ret tt)
  | Store req responseToCache =>
      try_catch
        (cache <- caches_open CACHE_NAME ;;
         unobserved (cache_put cache req responseToCache))
        (fun _ => ret tt)
  end.

Definition worker : Worker :=
  mkWorker Job install activate fetch_listener run_job.

End JS.

(** ** Running a worker *)

(** The worker starts over whatever the origin's storage holds. *)
Definition boot (W : Worker) (cs : CacheStorage) : Host (Job W) :=
  mkHost cs [] [].

Fixpoint remove_nth {A} (n : nat) (xs : list A) : list A :=
  match xs, n with
  | [], _ => []
  | _ :: rest, O => rest
  | x :: rest, S m => x :: remove_nth m rest
  end.

(** The [n]-th pending chain settles (nothing happens when there is none). *)
Definition settle (W : Worker) (n : nat) (w : World) (h : Host (Job W)) : Host (Job W) :=
  match nth_error (detached h) n with
  | None => h
  | Some j =>
      snd (run_job W j w (mkHost (caches h) (journal h) (remove_nth n (detached h))))
  end.

(** What can happen to an active worker, in any interleaving. *)
Inductive Step :=
| Intercept (req : Request)
| Settle (n : nat).

Definition step (W : Worker) (w : World) (s : Step) (h : Host (Job W)) : Host (Job W) :=
  match s with
  | Intercept req => snd (on_fetch W req w h)
  | Settle n => settle W n w h
  end.

Definition run (W : Worker) (w : World) (steps : list Step) (h : Host (Job W)) : Host (Job W) :=
  fold_left (fun h s => step W w s h) steps h.

(** ** The Scope Filter, in the words of the specification *)

Definition isEligible (w : World) (req : Request) : bool :=
  (method req =? "GET")
  && ((protocol (url req) =? "http:") || (protocol (url req) =? "https:"))
  && (origin (url req) =? origin (location w)).

(** What each worker calls "found in the store". *)
Definition TS_stored (cs : CacheStorage) (req : Request) : option Response :=
  cache_match (entries cs TS.CACHE_NAME) req.

Definition JS_stored (cs : CacheStorage) (req : Request) : option Response :=
  storage_match cs req.

(** ** The claims of the specification, for a worker [W] *)

(** Scope Filter: the engine runs only on eligible requests, and any other
    request is passed through with the host untouched. *)
Definition scope_filter_gates (W : Worker) : Prop :=
  forall w h req,
    (engine_invoked (fst (on_fetch W req w h)) = true -> isEligible w req = true)
    /\ (isEligible w req = false -> on_fetch W req w h = (PassThrough, h)).

(** The host once [caches.open(CACHE_NAME)] has run. *)
Definition opened {J} (name : string) (h : Host J) : Host J :=
  match get_cache (caches h) name with
  | Some _ => h
  | None => mkHost (set_cache (caches h) name []) (journal h) (detached h)
  end.

(** Network failure on a MISS: the caller gets a response with status 503,
    never a rejected promise. *)
Definition miss_failure_is_503
    (W : Worker) (stored : CacheStorage -> Request -> option Response) : Prop :=
  forall w h req,
    isEligible w req = true ->
    stored (caches h) req = None ->
    network w (now_ h) req = None ->
    exists r, fst (on_fetch W req w h) = Responded (Fulfilled r) /\ status r = 503%Z.

(** A successful write stores a response that is success-status and basic. *)
Definition stores_cacheable (e : Effect) : Prop :=
  match e with
  | Put _ _ resp true => ok resp = true /\ is_basic resp = true
  | _ => True
  end.

(** Cacheability: whatever the requests and the order in which pending
    chains settle, every write through the interception path stores a
    success-status, basic response. *)
Definition writes_only_cacheable (W : Worker) : Prop :=
  forall w cs steps,
    Forall stores_cacheable (journal (run W w steps (boot W cs))).

(** A write attempt is keyed by a GET request. *)
Definition writes_get_key (e : Effect) : Prop :=
  match e with
  | Put _ key _ _ => method key = "GET"
  | _ => True
  end.

(** Every entry of every cache is keyed by a GET request. *)
Definition get_keyed (cs : CacheStorage) : Prop :=
  Forall (fun nc => Forall (fun kv => method (fst kv) = "GET") (snd nc)) cs.

(** The effects recorded in [h'] after the time of [h]. *)
Definition since {J} (h h' : Host J) : list Effect :=
  skipn (now_ h) (journal h').

(** A successful write whose key has the URL of [req], fragments excluded:
    a write that replaces what a lookup of [req] finds. *)
Definition rewrites (req : Request) (e : Effect) : bool :=
  match e with
  | Put _ key _ true => href_no_hash (url key) =? href_no_hash (url req)
  | _ => false
  end.

(** The answers to [n] identical requests in a row, no pending chain
    settling in between. *)
Fixpoint answers (W : Worker) (w : World) (req : Request) (n : nat)
    (h : Host (Job W)) : list Handled :=
  match n with
  | O => []
  | S m => fst (on_fetch W req w h) :: answers W w req m (snd (on_fetch W req w h))
  end.

(** Activation after installation, over whatever caches the origin had:
    exactly the current namespace is left. *)
Definition activation_leaves_only_current (W : Worker) (current : string) : Prop :=
  forall w cs,
    NoDup (cache_names cs) ->
    cache_names
      (caches (snd (on_activate W w (snd (on_install W w (boot W cs))))))
    = [current].

(** A preload URL the network serves with an ok response [r] that the store
    accepts, and one whose fetch fails or is answered with a status that is
    not ok. *)
Definition preload_valid (w : World) (path : string) (r : Response) : Prop :=
  ok r = true
  /\ (forall t, network w t (request_of_url w path) = Some r)
  /\ (forall t, store_full w t (request_of_url w path) r = false).

Definition preload_invalid (w : World) (path : string) : Prop :=
  forall t,
    match network w t (request_of_url w path) with
    | None => True
    | Some r => ok r = false
    end.

(** Preloading one invalid and one valid URL: installation completes, the
    valid URL is in the store, the invalid one has produced no entry. *)
Definition preload_is_per_entry {J}
    (install_of : list string -> SW J unit) (name : string) : Prop :=
  forall w h bad good r,
    preload_invalid w bad ->
    preload_valid w good r ->
    fst (install_of [bad; good] w h) = Fulfilled tt
    /\ cache_match (entries (caches (snd (install_of [bad; good] w h))) name)
                   (request_of_url w good) = Some r
    /\ cache_match (entries (caches (snd (install_of [bad; good] w h))) name)
                   (request_of_url w bad)
       = cache_match (entries (caches h) name) (request_of_url w bad).

(** The effects left by a write that the worker does not await: the attempt,
    and the rejection reported as unhandled when the store refuses it. *)
Definition floating_put (name : string) (key : Request) (resp : Response)
    (refused : bool) : list Effect :=
  Put name key resp (negb refused)
  :: (if refused then [Unhandled WriteFailure] else []).

Definition is_unhandled (e : Effect) : bool :=
  match e with Unhandled _ => true | _ => false end.

(** Every rejection is caught: whatever the requests, the answers of the
    network and the store, and the order in which pending chains settle, the
    host never sees an unhandled rejection. *)
Definition every_rejection_caught (W : Worker) : Prop :=
  forall w cs steps,
    existsb is_unhandled (journal (run W w steps (boot W cs))) = false.

(** ** Invariants of the two workers *)

(** Every write attempt of service-worker.ts carries a cacheable response
    under a GET key. *)
Definition TS_put_ok (e : Effect) : Prop :=
  match e with
  | Put _ key resp _ => TS.cacheable resp = true /\ method key = "GET"
  | _ => True
  end.

Definition TS_job_get (j : TS.Job) : Prop :=
  match j with TS.Revalidate req _ => method req = "GET" end.

Definition TS_inv (h : Host TS.Job) : Prop :=
  Forall TS_put_ok (journal h) /\ Forall TS_job_get (detached h).

(** The request a pending chain of service-worker.js is about. *)
Definition JS_job_req (j : JS.Job) : Request :=
  match j with
  | JS.Revalidate req _ => req
  | JS.Store req _ => req
  end.

Definition JS_inv (h : Host JS.Job) : Prop :=
  Forall writes_get_key (journal h)
  /\ Forall (fun j => method (JS_job_req j) = "GET") (detached h).

(** Well-formed storage that has the cache [name]. *)
Definition has_cache (name : string) (cs : CacheStorage) : Prop :=
  NoDup (cache_names cs) /\ In name (cache_names cs).

(** What a lookup of the preload URL [u] in the current cache of
    service-worker.js finds. *)
Definition JS_preloaded (cs : CacheStorage) (w : World) (u : string) : option Response :=
  cache_match (entries cs JS.CACHE_NAME) (request_of_url w u).

(** ** Concrete hosts, requests and responses used in examples *)

Definition app_origin : string := "https://app.nexasec.test".

Definition worker_location : URL :=
  mkURL "https:" app_origin (app_origin ++ "/service-worker.js") "".

Definition same_origin_get (path : string) : Request :=
  mkRequest "GET" (mkURL "https:" app_origin (app_origin ++ path) "").

(** The same, with a fragment: [hash] is '#' and the fragment. *)
Definition same_origin_get_at (path hash : string) : Request :=
  mkRequest "GET" (mkURL "https:" app_origin (app_origin ++ path) hash).

Definition third_party_get : Request :=
  mkRequest "GET"
    (mkURL "https:" "https://cdn.other.test" "https://cdn.other.test/lib.js" "").

Definition ok_basic (b : string) : Response := mkResponse 200 "OK" basic b.

Definition ok_cors (b : string) : Response := mkResponse 200 "OK" cors b.

(** The network is down and the store never refuses a write. *)
Definition offline : World :=
  mkWorld worker_location (fun _ _ => None) (fun _ _ _ => false).

(** Every fetch answers 200/basic with body [b]. *)
Definition online (b : string) : World :=
  mkWorld worker_location (fun _ _ => Some (ok_basic b)) (fun _ _ _ => false).

(** The store refuses every write. *)
Definition store_always_full (b : string) : World :=
  mkWorld worker_location (fun _ _ => Some (ok_basic b)) (fun _ _ _ => true).

(** Every fetch answers 200 with a response of type cors, as when the server
    has started to redirect to another origin that allows the request. *)
Definition answers_cors (b : string) : World :=
  mkWorld worker_location (fun _ _ => Some (ok_cors b)) (fun _ _ _ => false).

(** The network serves every URL but /api/network/map. *)
Definition map_route_down : World :=
  mkWorld worker_location
    (fun _ req =>
       if href_no_hash (url req) =? app_origin ++ "/api/network/map"
       then None
       else Some (ok_basic "served"))
    (fun _ _ _ => false).

(** ** Further vocabulary for the behaviour of the two workers *)

(** The requests put on the wire by a list of effects, in order. *)
Fixpoint fetches (es : list Effect) : list Request :=
  match es with
  | [] => []
  | Fetched req :: rest => req :: fetches rest
  | _ :: rest => fetches rest
  end.

(** The write attempts among a list of effects. *)
Fixpoint puts (es : list Effect) : list Effect :=
  match es with
  | [] => []
  | Put name key resp b :: rest => Put name key resp b :: puts rest
  | _ :: rest => puts rest
  end.

(** The oldest pending chain settles, [fuel] times. *)
Fixpoint drain (W : Worker) (w : World) (fuel : nat) (h : Host (Job W)) : Host (Job W) :=
  match fuel with
  | O => h
  | S n => drain W w n (settle W 0 w h)
  end.

(** No fetch ever obtains a response. *)
Definition network_down (w : World) : Prop :=
  forall t req, network w t req = None.

(** What service-worker.js stores on the MISS path: [status === 200] and
    [type === 'basic']. *)
Definition JS_cacheable (response : Response) : bool :=
  (status response =? 200)%Z && is_basic response.

(** No cache other than [name] holds an entry that answers [req]. *)
Definition only_in (name : string) (cs : CacheStorage) (req : Request) : Prop :=
  forall n c, In (n, c) cs -> n <> name -> cache_match c req = None.


(** A pending chain of service-worker.js that is a revalidation, not the
    write of a MISS. *)
Definition JS_is_revalidation (j : JS.Job) : Prop :=
  match j with
  | JS.Revalidate _ _ => True
  | JS.Store _ _ => False
  end.

(** The effects by which a worker takes control: [skipWaiting()] and
    [clients.claim()]. *)
Definition is_takeover (e : Effect) : bool :=
  match e with
  | SkippedWaiting | ClaimedClients => true
  | _ => false
  end.

(** The effects [extra] send exactly [sent] and contain no takeover. *)
Definition traffic_only (extra : list Effect) (sent : list Request) : Prop :=
  fetches extra = sent /\ filter is_takeover extra = [].

(** ** frontend/src/components/ServiceWorkerRegistration.tsx

    The component that registers the worker.  Its effect runs once per
    mounted instance; the page is what the effect reads and changes: the
    document's ready state, the listeners of the window's 'load' event that
    the instances have added (each instance adds its own
    [registerServiceWorker] closure, named here by the instance), the
    callbacks handed to [requestIdleCallback] or [setTimeout] (each of them
    the registration callback), and the calls made to
    [navigator.serviceWorker.register]. *)
Module Registration.

Record Browser := mkBrowser {
  serviceWorker_in_navigator    : bool;   (* ['serviceWorker' in navigator] *)
  requestIdleCallback_in_window : bool    (* ['requestIdleCallback' in window] *)
}.

(** How a scheduled callback waits. *)
Inductive Timer :=
| Idle
| Timeout (ms : nat).

Record Page := mkPage {
  complete       : bool;          (* [document.readyState === 'complete'] *)
  loaded         : bool;          (* a 'load' event has been dispatched *)
  load_listeners : list nat;
  timers         : list Timer;
  registered     : list string
}.

(** The callback given to [scheduleRegistration]. *)
Definition callback (p : Page) : Page :=
  mkPage (complete p) (loaded p) (load_listeners p) (timers p)
         (registered p ++ ["/service-worker.js"])%list.

Definition scheduleRegistration (b : Browser) (p : Page) : Page :=
  if requestIdleCallback_in_window b
  then mkPage (complete p) (loaded p) (load_listeners p) (timers p ++ [Idle])%list
              (registered p)
  else mkPage (complete p) (loaded p) (load_listeners p) (timers p ++ [Timeout 0])%list
              (registered p).

Definition registerServiceWorker (b : Browser) (p : Page) : Page :=
  if serviceWorker_in_navigator b then scheduleRegistration b p else p.

(** The body of [useEffect] for the instance [i]. *)
Definition effect (b : Browser) (i : nat) (p : Page) : Page :=
  if complete p
  then registerServiceWorker b p
  else mkPage (complete p) (loaded p) (load_listeners p ++ [i])%list (timers p)
              (registered p).

(** The cleanup the effect returns when it added a listener:
    [window.removeEventListener('load', registerServiceWorker)].  When the
    effect returned no cleanup the instance has no listener and this changes
    nothing. *)
Definition cleanup (i : nat) (p : Page) : Page :=
  mkPage (complete p) (loaded p)
         (filter (fun j => negb (Nat.eqb j i)) (load_listeners p))
         (timers p) (registered p).

(** The 'load' event is dispatched on the window: every listener attached
    at that moment runs, in the order of attachment.  The listeners were
    added without the [once] option, so they stay attached and run again if
    the event is dispatched again.  The ready state is not touched here: the
    browser's own 'load' follows [ReadyComplete]. *)
Definition dispatch_load (b : Browser) (p : Page) : Page :=
  fold_left (fun q _ => registerServiceWorker b q) (load_listeners p)
    (mkPage (complete p) true (load_listeners p) (timers p) (registered p)).

(** The [n]-th scheduled callback runs (nothing happens when there is none). *)
Definition fire (n : nat) (p : Page) : Page :=
  match nth_error (timers p) n with
  | None => p
  | Some _ =>
      callback (mkPage (complete p) (loaded p) (load_listeners p)
                       (remove_nth n (timers p)) (registered p))
  end.

Inductive Event :=
| Mount (i : nat)
| Unmount (i : nat)
| ReadyComplete        (* the document's ready state becomes 'complete' *)
| Load
| Fire (n : nat).

Definition step (b : Browser) (e : Event) (p : Page) : Page :=
  match e with
  | Mount i => effect b i p
  | Unmount i => cleanup i p
  | ReadyComplete =>
      mkPage true (loaded p) (load_listeners p) (timers p) (registered p)
  | Load => dispatch_load b p
  | Fire n => fire n p
  end.

Definition run (b : Browser) (events : list Event) (p : Page) : Page :=
  fold_left (fun q e => step b e q) events p.

(** A page on which the component has done nothing yet. *)
Definition fresh (is_complete has_loaded : bool) : Page :=
  mkPage is_complete has_loaded [] [] [].

Definition is_mount (e : Event) : bool :=
  match e with Mount _ => true | _ => false end.

Definition is_load (e : Event) : bool :=
  match e with Load => true | _ => false end.

Definition mounts (events : list Event) : nat :=
  List.length (filter is_mount events).

Definition loads (events : list Event) : nat :=
  List.length (filter is_load events).

(** Calls to [register] made, or scheduled and not yet run. *)
Definition made (p : Page) : nat :=
  List.length (registered p) + List.length (timers p).

End Registration.

(** ** The API error handler kept in frontend/public/service-worker.js

    [handleApiError], with the error object as its type declares it and the
    two effects it has: a toast and a console entry. *)
Module Api.

Record ApiErrorResponse := mkApiErrorResponse {
  message : option string;
  detail  : option string
}.

Record ErrorResponse := mkErrorResponse {
  status : Z;
  data   : option ApiErrorResponse
}.

Record AxiosError := mkAxiosError {
  response      : option ErrorResponse;
  error_message : string;            (* [error.message] *)
  config_url    : option string      (* [error.config?.url] *)
}.

Record Ui := mkUi {
  toasts  : list string;
  console : list (option Z * string * option string)
}.

(** [a || b] on values that are a string or undefined: the empty string and
    undefined are falsy. *)
Definition or_else (a b : option string) : option string :=
  match a with
  | Some s => if s =? "" then b else Some s
  | None => b
  end.

Definition handleApiError (error : AxiosError) (ui : Ui) : Ui :=
  let status := option_map status (response error) in
  let data := match response error with Some r => data r | None => None end in
  let message :=
    match or_else (match data with Some d => message d | None => None end)
            (or_else (match data with Some d => detail d | None => None end)
               (or_else (Some (error_message error))
                  (Some "An unexpected error occurred"))) with
    | Some m => m
    | None => ""
    end in
  mkUi (toasts ui ++ [message])%list
       (console ui ++ [(status, message, config_url error)])%list.

(** The candidates for the text, in the order of the source. *)
Definition candidates (error : AxiosError) : list (option string) :=
  let data := match response error with Some r => data r | None => None end in
  [match data with Some d => message d | None => None end;
   match data with Some d => detail d | None => None end;
   Some (error_message error)].

Definition nonempty (s : option string) : bool :=
  match s with Some s => negb (s =? "") | None => false end.

End Api.

(** * Proofs *)

Local Open Scope list_scope.

Ltac unfold_sw :=
  unfold respondWith, unobserved, fetch in *;
  unfold bind, ret, throw, try_catch, caches_open, cache_lookup, caches_match,
    caches_keys, caches_delete, cache_put, fetch_dispatch, fetch_settle,
    detach, effect, record, now_ in *.

Lemma respondWith_invoked {J} (engine : SW J Response) w h :
  engine_invoked (fst (respondWith engine w h)) = true.
Proof. unfold respondWith. destruct (engine w h). reflexivity. Qed.

Lemma TS_fetch_listener_eq req w h :
  TS.fetch_listener req w h =
  if isEligible w req then respondWith (TS.handle req) w h else (PassThrough, h).
Proof.
  unfold TS.fetch_listener, isEligible.
  destruct (method req =? "GET"); simpl; [|reflexivity].
  destruct (protocol (url req) =? "http:"); simpl.
  - destruct (origin (url req) =? origin (location w)); reflexivity.
  - destruct (protocol (url req) =? "https:"); simpl; [|reflexivity].
    destruct (origin (url req) =? origin (location w)); reflexivity.
Qed.

Lemma JS_fetch_listener_eq req w h :
  JS.fetch_listener req w h =
  if method req =? "GET" then respondWith (JS.handle req) w h else (PassThrough, h).
Proof.
  unfold JS.fetch_listener. destruct (method req =? "GET"); reflexivity.
Qed.

Lemma TS_scope_filter_gates : scope_filter_gates TS.worker.
Proof.
  intros w h req. simpl. rewrite TS_fetch_listener_eq.
  destruct (isEligible w req); split; intros H; try reflexivity; try discriminate.
Qed.

(** C1, as stated, fails for service-worker.js: a GET request to another
    origin is not eligible, yet the listener calls respondWith and the engine
    sends it to the network. *)
Lemma JS_engine_takes_cross_origin_get :
  isEligible offline third_party_get = false
  /\ engine_invoked
       (fst (on_fetch JS.worker third_party_get offline (boot JS.worker []))) = true
  /\ journal (snd (on_fetch JS.worker third_party_get offline (boot JS.worker [])))
     = [Fetched third_party_get]
  /\ ~ scope_filter_gates JS.worker.
Proof.
  split; [reflexivity|]. split; [reflexivity|]. split; [reflexivity|].
  intros H.
  destruct (H offline (boot JS.worker []) third_party_get) as [H1 _].
  specialize (H1 eq_refl). discriminate H1.
Qed.

(** C1 (amended): in service-worker.ts the listener hands a request to the
    engine exactly when the three Scope Filter rules hold and otherwise
    returns with the host untouched; in service-worker.js the only rule is
    the method: every GET request goes to the engine, whatever its scheme or
    origin, and every other request is passed through untouched. *)
Theorem scope_filter_per_worker :
  (forall w h req,
      TS.fetch_listener req w h =
      if isEligible w req then respondWith (TS.handle req) w h else (PassThrough, h))
  /\ (forall w h req,
      engine_invoked (fst (TS.fetch_listener req w h)) = isEligible w req)
  /\ (forall w h req,
      JS.fetch_listener req w h =
      if method req =? "GET" then respondWith (JS.handle req) w h else (PassThrough, h))
  /\ (forall w h req,
      engine_invoked (fst (JS.fetch_listener req w h)) = (method req =? "GET")).
Proof.
  repeat split; intros; simpl.
  - apply TS_fetch_listener_eq.
  - rewrite TS_fetch_listener_eq. destruct (isEligible w req);
      [apply respondWith_invoked | reflexivity].
  - apply JS_fetch_listener_eq.
  - rewrite JS_fetch_listener_eq. destruct (method req =? "GET");
      [apply respondWith_invoked | reflexivity].
Qed.

(** ** The store *)

Lemma get_set_cache_same cs name c :
  get_cache (set_cache cs name c) name = Some c.
Proof.
  induction cs as [|[n c0] rest IH]; simpl.
  - rewrite String.eqb_refl. reflexivity.
  - destruct (n =? name) eqn:E; simpl; rewrite E; [reflexivity | exact IH].
Qed.

Lemma get_set_cache_other cs name c other :
  other <> name ->
  get_cache (set_cache cs name c) other = get_cache cs other.
Proof.
  intros Hne. induction cs as [|[n c0] rest IH]; simpl.
  - destruct (name =? other) eqn:E; [|reflexivity].
    apply String.eqb_eq in E. congruence.
  - destruct (n =? name) eqn:E; simpl.
    + apply String.eqb_eq in E. subst n.
      destruct (name =? other) eqn:E'; [|reflexivity].
      apply String.eqb_eq in E'. congruence.
    + rewrite IH. reflexivity.
Qed.

Lemma entries_set_cache_same cs name c :
  entries (set_cache cs name c) name = c.
Proof. unfold entries. rewrite get_set_cache_same. reflexivity. Qed.

Lemma entries_set_cache_other cs name c other :
  other <> name ->
  entries (set_cache cs name c) other = entries cs other.
Proof. intros H. unfold entries. rewrite get_set_cache_other by exact H. reflexivity. Qed.

Lemma entries_absent cs name :
  get_cache cs name = None -> entries cs name = [].
Proof. unfold entries. intros ->. reflexivity. Qed.

(** Opening a cache never changes what a lookup in it finds. *)
Lemma caches_open_spec {J} name w (h : Host J) :
  fst (caches_open name w h) = Fulfilled name
  /\ entries (caches (snd (caches_open name w h))) name = entries (caches h) name
  /\ journal (snd (caches_open name w h)) = journal h
  /\ detached (snd (caches_open name w h)) = detached h.
Proof.
  unfold caches_open. destruct (get_cache (caches h) name) eqn:E; simpl.
  - repeat split.
  - repeat split. rewrite entries_set_cache_same, entries_absent by exact E.
    reflexivity.
Qed.

Lemma cache_match_store_same c req resp :
  method req = "GET" ->
  cache_match (cache_store c req resp) req = Some resp.
Proof.
  intros Hget. unfold cache_store.
  induction c as [|[k v] rest IH]; simpl.
  - unfold request_matches.
    rewrite Hget, (String.eqb_refl (href_no_hash (url req))). reflexivity.
  - destruct (href_no_hash (url req) =? href_no_hash (url k)) eqn:E; simpl; [exact IH|].
    unfold request_matches at 1. rewrite E, andb_false_r. exact IH.
Qed.

Lemma cache_match_store_other c key resp req :
  (href_no_hash (url key) =? href_no_hash (url req)) = false ->
  cache_match (cache_store c key resp) req = cache_match c req.
Proof.
  intros Hne. unfold cache_store.
  assert (Hne' : (href_no_hash (url req) =? href_no_hash (url key)) = false)
    by (rewrite String.eqb_sym; exact Hne).
  induction c as [|[k v] rest IH]; simpl.
  - unfold request_matches. rewrite Hne', andb_false_r. reflexivity.
  - destruct (href_no_hash (url key) =? href_no_hash (url k)) eqn:E; simpl.
    + apply String.eqb_eq in E. unfold request_matches.
      rewrite <- E, Hne', andb_false_r. exact IH.
    + rewrite IH. reflexivity.
Qed.

(** ** One interception, case by case *)

Lemma TS_handle_hit w h req cached :
  TS_stored (caches h) req = Some cached ->
  TS.handle req w h =
  (Fulfilled cached,
   mkHost (caches h) (journal h ++ [Fetched req])
          (detached h ++ [TS.Revalidate req (now_ h)])).
Proof.
  unfold TS_stored, entries. intros Hhit.
  unfold TS.handle. unfold_sw.
  destruct (get_cache (caches h) TS.CACHE_NAME) eqn:E; simpl.
  - unfold entries. rewrite E, Hhit. reflexivity.
  - discriminate Hhit.
Qed.

Lemma TS_handle_miss w h req :
  TS_stored (caches h) req = None ->
  TS.handle req w h =
  let h0 := opened TS.CACHE_NAME h in
  match network w (now_ h) req with
  | None => (Fulfilled TS.unavailable, record (Fetched req) h0)
  | Some r =>
      if TS.cacheable r
      then if store_full w (S (now_ h)) req r
           then (Fulfilled r,
                 record (Put TS.CACHE_NAME req r false) (record (Fetched req) h0))
           else (Fulfilled r,
                 mkHost (set_cache (caches h0) TS.CACHE_NAME
                           (cache_store (entries (caches h0) TS.CACHE_NAME) req r))
                        (journal h ++ [Fetched req; Put TS.CACHE_NAME req r true])
                        (detached h))
      else (Fulfilled r, record (Fetched req) h0)
  end.
Proof.
  unfold TS_stored. intros Hmiss.
  assert (Hj : journal (opened TS.CACHE_NAME h) = journal h)
    by (unfold opened; destruct (get_cache (caches h) TS.CACHE_NAME); reflexivity).
  assert (Hd : detached (opened TS.CACHE_NAME h) = detached h)
    by (unfold opened; destruct (get_cache (caches h) TS.CACHE_NAME); reflexivity).
  assert (He : entries (caches (opened TS.CACHE_NAME h)) TS.CACHE_NAME
               = entries (caches h) TS.CACHE_NAME).
  { unfold opened. destruct (get_cache (caches h) TS.CACHE_NAME) eqn:E; simpl;
      [reflexivity|].
    rewrite entries_set_cache_same, entries_absent by exact E. reflexivity. }
  unfold TS.handle, bind at 1, caches_open.
  fold (opened TS.CACHE_NAME h).
  replace (match get_cache (caches h) TS.CACHE_NAME with
           | Some _ => (Fulfilled TS.CACHE_NAME, h)
           | None => (Fulfilled TS.CACHE_NAME,
                      mkHost (set_cache (caches h) TS.CACHE_NAME [])
                             (journal h) (detached h))
           end)
    with (Fulfilled TS.CACHE_NAME, opened TS.CACHE_NAME h)
    by (unfold opened; destruct (get_cache (caches h) TS.CACHE_NAME); reflexivity).
  cbv zeta. set (h0 := opened TS.CACHE_NAME h) in *.
  unfold_sw. rewrite He, Hmiss, Hj.
  destruct (network w (List.length (journal h)) req) as [r|]; simpl; [|reflexivity].
  destruct (TS.cacheable r); simpl; [|reflexivity].
  rewrite length_app. simpl. rewrite Nat.add_1_r.
  destruct (store_full w (S (List.length (journal h))) req r); simpl.
  - reflexivity.
  - rewrite Hd, <- app_assoc, ?He. reflexivity.
Qed.

Lemma JS_handle_hit w h req response :
  JS_stored (caches h) req = Some response ->
  JS.handle req w h =
  (Fulfilled response,
   mkHost (caches h) (journal h ++ [Fetched req])
          (detached h ++ [JS.Revalidate req (now_ h)])).
Proof.
  unfold JS_stored. intros Hhit.
  unfold JS.handle. unfold_sw. rewrite Hhit. reflexivity.
Qed.

Lemma JS_handle_miss w h req :
  JS_stored (caches h) req = None ->
  JS.handle req w h =
  match network w (now_ h) req with
  | None => (Rejected NetworkFailure, record (Fetched req) h)
  | Some r =>
      if negb (status r =? 200)%Z || negb (is_basic r)
      then (Fulfilled r, record (Fetched req) h)
      else (Fulfilled r,
            mkHost (caches h) (journal h ++ [Fetched req])
                   (detached h ++ [JS.Store req r]))
  end.
Proof.
  unfold JS_stored. intros Hmiss.
  unfold JS.handle. unfold_sw. rewrite Hmiss. simpl.
  destruct (network w (List.length (journal h)) req) as [r|]; simpl; [|reflexivity].
  destruct (negb (status r =? 200)%Z || negb (is_basic r)); reflexivity.
Qed.

Lemma eligible_is_get w req : isEligible w req = true -> method req = "GET".
Proof.
  unfold isEligible. intros H.
  apply andb_true_iff in H. destruct H as [H _].
  apply andb_true_iff in H. destruct H as [H _].
  apply String.eqb_eq. exact H.
Qed.

Lemma TS_on_fetch_eligible w h req :
  isEligible w req = true ->
  TS.fetch_listener req w h = respondWith (TS.handle req) w h.
Proof. intros H. rewrite TS_fetch_listener_eq, H. reflexivity. Qed.

Lemma JS_on_fetch_get w h req :
  method req = "GET" ->
  JS.fetch_listener req w h = respondWith (JS.handle req) w h.
Proof.
  intros H. simpl. rewrite JS_fetch_listener_eq, H. reflexivity.
Qed.

(** ** Network failure on a MISS *)

Lemma TS_handle_never_rejects w h req e :
  fst (TS.handle req w h) <> Rejected e.
Proof.
  destruct (TS_stored (caches h) req) as [c|] eqn:E.
  - rewrite (TS_handle_hit w h req c E). discriminate.
  - rewrite (TS_handle_miss w h req E). cbv zeta.
    destruct (network w (now_ h) req) as [r|]; [|discriminate].
    destruct (TS.cacheable r); [|discriminate].
    destruct (store_full w (S (now_ h)) req r); discriminate.
Qed.

(** C2, as stated, fails for service-worker.js: with the network down, a
    same-origin GET that is not in the store makes the promise given to
    respondWith reject with the fetch error; no 503 response is built. *)
Lemma JS_miss_failure_rejects :
  isEligible offline (same_origin_get "/api/scans") = true
  /\ JS_stored (caches (boot JS.worker [])) (same_origin_get "/api/scans") = None
  /\ fst (on_fetch JS.worker (same_origin_get "/api/scans") offline (boot JS.worker []))
     = Responded (Rejected NetworkFailure)
  /\ ~ miss_failure_is_503 JS.worker JS_stored.
Proof.
  split; [reflexivity|]. split; [reflexivity|]. split; [reflexivity|].
  intros H.
  destruct (H offline (boot JS.worker []) (same_origin_get "/api/scans")
              eq_refl eq_refl eq_refl) as [r [Hr _]].
  discriminate Hr.
Qed.

(** C2 (amended): in service-worker.ts an eligible request that misses the
    store and whose fetch fails is answered with the fixed response
    [TS.unavailable] (status 503, fixed body), and the promise given to
    respondWith never rejects, whatever the request; in service-worker.js the
    catch of the MISS branch rethrows: the promise rejects with the fetch
    error and no 503 response is synthesized. *)
Theorem network_failure_on_miss :
  (forall w h req,
      isEligible w req = true ->
      TS_stored (caches h) req = None ->
      network w (now_ h) req = None ->
      TS.fetch_listener req w h =
      (Responded (Fulfilled TS.unavailable),
       record (Fetched req) (opened TS.CACHE_NAME h)))
  /\ status TS.unavailable = 503%Z
  /\ body TS.unavailable = "Network request failed and no cache available"
  /\ (forall w h req e, fst (TS.fetch_listener req w h) <> Responded (Rejected e))
  /\ (forall w h req,
      method req = "GET" ->
      JS_stored (caches h) req = None ->
      network w (now_ h) req = None ->
      JS.fetch_listener req w h =
      (Responded (Rejected NetworkFailure), record (Fetched req) h)).
Proof.
  split; [|split; [reflexivity|split; [reflexivity|split]]].
  - intros w h req He Hmiss Hnet.
    rewrite (TS_on_fetch_eligible w h req He). unfold respondWith.
    rewrite (TS_handle_miss w h req Hmiss). cbv zeta. rewrite Hnet. reflexivity.
  - intros w h req e. simpl. rewrite TS_fetch_listener_eq.
    destruct (isEligible w req); [|discriminate].
    unfold respondWith.
    pose proof (TS_handle_never_rejects w h req e) as Hn.
    destruct (TS.handle req w h) as [r h']. simpl in *. congruence.
  - intros w h req Hget Hmiss Hnet.
    rewrite (JS_on_fetch_get w h req Hget). unfold respondWith.
    rewrite (JS_handle_miss w h req Hmiss), Hnet. reflexivity.
Qed.

Lemma network_failure_on_miss_witness :
  TS.fetch_listener (same_origin_get "/api/scans") offline (boot TS.worker [])
  = (Responded (Fulfilled TS.unavailable),
     record (Fetched (same_origin_get "/api/scans"))
            (opened TS.CACHE_NAME (boot TS.worker [])))
  /\ JS.fetch_listener (same_origin_get "/api/scans") offline (boot JS.worker [])
     = (Responded (Rejected NetworkFailure),
        record (Fetched (same_origin_get "/api/scans")) (boot JS.worker [])).
Proof.
  split.
  - apply (proj1 network_failure_on_miss); reflexivity.
  - apply (proj2 (proj2 (proj2 (proj2 network_failure_on_miss)))); reflexivity.
Defined.

(** ** HIT: serve the stored response, revalidate in the background *)

(** C6: on a HIT the listener answers with the stored response and returns
    with exactly one new host effect, the revalidation fetch put on the wire,
    and exactly one new pending chain, the continuation of that fetch: the
    answer and the host it leaves do not depend on what the network does, and
    the store is as it was.  This holds in service-worker.ts for every
    eligible request and in service-worker.js for every GET request. *)
Theorem hit_serves_stored_and_revalidates_once :
  (forall w h req cached,
      isEligible w req = true ->
      TS_stored (caches h) req = Some cached ->
      TS.fetch_listener req w h =
      (Responded (Fulfilled cached),
       mkHost (caches h) (journal h ++ [Fetched req])
              (detached h ++ [TS.Revalidate req (now_ h)])))
  /\ (forall w h req cached,
      method req = "GET" ->
      JS_stored (caches h) req = Some cached ->
      JS.fetch_listener req w h =
      (Responded (Fulfilled cached),
       mkHost (caches h) (journal h ++ [Fetched req])
              (detached h ++ [JS.Revalidate req (now_ h)]))).
Proof.
  split.
  - intros w h req cached He Hhit.
    rewrite (TS_on_fetch_eligible w h req He). unfold respondWith.
    rewrite (TS_handle_hit w h req cached Hhit). reflexivity.
  - intros w h req cached Hget Hhit.
    rewrite (JS_on_fetch_get w h req Hget). unfold respondWith.
    rewrite (JS_handle_hit w h req cached Hhit). reflexivity.
Qed.

Lemma hit_serves_stored_and_revalidates_once_witness :
  let req := same_origin_get "/api/scans" in
  let h := boot TS.worker [(TS.CACHE_NAME, [(req, ok_basic "stale")])] in
  let h' := boot JS.worker [(JS.CACHE_NAME, [(req, ok_basic "stale")])] in
  TS.fetch_listener req offline h =
  (Responded (Fulfilled (ok_basic "stale")),
   mkHost (caches h) [Fetched req] [TS.Revalidate req 0])
  /\ JS.fetch_listener req offline h' =
     (Responded (Fulfilled (ok_basic "stale")),
      mkHost (caches h') [Fetched req] [JS.Revalidate req 0]).
Proof.
  split.
  - apply (proj1 hit_serves_stored_and_revalidates_once
             offline (boot TS.worker
                        [(TS.CACHE_NAME,
                          [(same_origin_get "/api/scans", ok_basic "stale")])]));
      reflexivity.
  - apply (proj2 hit_serves_stored_and_revalidates_once
             offline (boot JS.worker
                        [(JS.CACHE_NAME,
                          [(same_origin_get "/api/scans", ok_basic "stale")])]));
      reflexivity.
Defined.

(** ** MISS: fetch, store when cacheable, answer with what was fetched *)

Lemma JS_run_store_job w h req r :
  fst (JS.run_job (JS.Store req r) w h) = Fulfilled tt
  /\ journal (snd (JS.run_job (JS.Store req r) w h))
     = journal h ++ floating_put JS.CACHE_NAME req r (store_full w (now_ h) req r).
Proof.
  unfold JS.run_job, floating_put. unfold_sw.
  destruct (get_cache (caches h) JS.CACHE_NAME); simpl;
    destruct (store_full w (List.length (journal h)) req r); simpl;
    rewrite <- ?app_assoc; split; reflexivity.
Qed.

Lemma TS_miss_cacheable w h req r :
  isEligible w req = true ->
  TS_stored (caches h) req = None ->
  network w (now_ h) req = Some r ->
  TS.cacheable r = true ->
  fst (TS.fetch_listener req w h) = Responded (Fulfilled r)
  /\ journal (snd (TS.fetch_listener req w h))
     = journal h
         ++ [Fetched req;
             Put TS.CACHE_NAME req r (negb (store_full w (S (now_ h)) req r))].
Proof.
  intros He Hmiss Hnet Hc.
  rewrite (TS_on_fetch_eligible w h req He). unfold respondWith.
  rewrite (TS_handle_miss w h req Hmiss). cbv zeta. rewrite Hnet, Hc.
  destruct (store_full w (S (now_ h)) req r); simpl; split; try reflexivity.
  unfold opened. destruct (get_cache (caches h) TS.CACHE_NAME); simpl;
    rewrite <- app_assoc; reflexivity.
Qed.

(** C10: in service-worker.ts, when the listener answers a cacheable MISS the
    write to the store has already been attempted, as the last host effect
    before the answer, and no chain is left pending; if that write was not
    refused, the store holds the response and the same request, asked again,
    is answered from the store. *)
Theorem TS_miss_write_precedes_answer w h req r :
  isEligible w req = true ->
  TS_stored (caches h) req = None ->
  network w (now_ h) req = Some r ->
  TS.cacheable r = true ->
  let h' := snd (TS.fetch_listener req w h) in
  fst (TS.fetch_listener req w h) = Responded (Fulfilled r)
  /\ journal h'
     = journal h
         ++ [Fetched req;
             Put TS.CACHE_NAME req r (negb (store_full w (S (now_ h)) req r))]
  /\ detached h' = detached h
  /\ (store_full w (S (now_ h)) req r = false ->
      TS_stored (caches h') req = Some r
      /\ forall w', isEligible w' req = true ->
           fst (TS.fetch_listener req w' h') = Responded (Fulfilled r)).
Proof.
  intros He Hmiss Hnet Hc h'.
  destruct (TS_miss_cacheable w h req r He Hmiss Hnet Hc)
    as [Hans Hjournal].
  split; [exact Hans|]. split; [exact Hjournal|].
  subst h'. rewrite (TS_on_fetch_eligible w h req He). unfold respondWith.
  rewrite (TS_handle_miss w h req Hmiss). cbv zeta. rewrite Hnet, Hc.
  destruct (store_full w (S (now_ h)) req r) eqn:Hfull; simpl.
  - split; [|discriminate].
    unfold opened. destruct (get_cache (caches h) TS.CACHE_NAME); reflexivity.
  - split; [reflexivity|]. intros _.
    assert (Hst : TS_stored
                    (set_cache (caches (opened TS.CACHE_NAME h)) TS.CACHE_NAME
                       (cache_store
                          (entries (caches (opened TS.CACHE_NAME h)) TS.CACHE_NAME)
                          req r)) req = Some r).
    { unfold TS_stored. rewrite entries_set_cache_same.
      apply cache_match_store_same. exact (eligible_is_get w req He). }
    split; [exact Hst|].
    intros w' He'.
    match goal with
    | |- fst (TS.fetch_listener req w' ?x) = _ =>
        rewrite (TS_on_fetch_eligible w' x req He'); unfold respondWith;
        rewrite (TS_handle_hit w' x req r Hst)
    end.
    reflexivity.
Qed.

Lemma TS_miss_write_precedes_answer_witness :
  let req := same_origin_get "/api/scans" in
  let h' := snd (TS.fetch_listener req (online "fresh") (boot TS.worker [])) in
  fst (TS.fetch_listener req (online "fresh") (boot TS.worker []))
  = Responded (Fulfilled (ok_basic "fresh"))
  /\ journal h' = [Fetched req; Put TS.CACHE_NAME req (ok_basic "fresh") true]
  /\ detached h' = []
  /\ (false = false ->
      TS_stored (caches h') req = Some (ok_basic "fresh")
      /\ forall w', isEligible w' req = true ->
           fst (TS.fetch_listener req w' h') = Responded (Fulfilled (ok_basic "fresh"))).
Proof.
  exact (TS_miss_write_precedes_answer (online "fresh") (boot TS.worker [])
           (same_origin_get "/api/scans") (ok_basic "fresh")
           eq_refl eq_refl eq_refl eq_refl).
Defined.

(** In service-worker.js, by contrast, the write of a cacheable MISS is
    still pending when the listener answers: the store is empty at that
    point, the same request asked again at once goes to the network a second
    time, and the entry appears when the pending chain settles. *)
Example JS_miss_write_is_pending :
  let req := same_origin_get "/api/scans" in
  let h1 := snd (JS.fetch_listener req (online "fresh") (boot JS.worker [])) in
  caches h1 = []
  /\ detached h1 = [JS.Store req (ok_basic "fresh")]
  /\ journal (snd (JS.fetch_listener req (online "fresh") h1))
     = [Fetched req; Fetched req]
  /\ caches (settle JS.worker 0 (online "fresh") h1)
     = [(JS.CACHE_NAME, [(req, ok_basic "fresh")])].
Proof. repeat split. Qed.

(** ** Runs: invariants of every interleaving *)

Section RunInvariant.
Variable W : Worker.
Variable w : World.
Variable Inv : Host (Job W) -> Prop.
Hypothesis Preserve : forall s h, Inv h -> Inv (step W w s h).

Lemma run_preserves steps : forall h, Inv h -> Inv (run W w steps h).
Proof.
  induction steps as [|s steps IH]; intros h Hh; simpl.
  - exact Hh.
  - apply IH, Preserve, Hh.
Qed.
End RunInvariant.

Lemma Forall_remove_nth {A} (P : A -> Prop) n : forall xs,
  Forall P xs -> Forall P (remove_nth n xs).
Proof.
  induction n as [|n IH]; intros [|x xs] H; simpl; try constructor;
    inversion H; subst; auto.
Qed.

Lemma Forall_nth_error {A} (P : A -> Prop) xs n x :
  Forall P xs -> nth_error xs n = Some x -> P x.
Proof.
  intros H Hn. apply nth_error_In in Hn.
  rewrite Forall_forall in H. apply H, Hn.
Qed.

Lemma Forall_snoc {A} (P : A -> Prop) xs x :
  Forall P xs -> P x -> Forall P (xs ++ [x]).
Proof. intros H Hx. apply Forall_app. split; [exact H | constructor; [exact Hx | constructor]]. Qed.

(** *** service-worker.ts *)

Lemma TS_run_job_cases w h req sent :
  let h' := snd (TS.run_job (TS.Revalidate req sent) w h) in
  (caches h' = caches h /\ journal h' = journal h /\ detached h' = detached h)
  \/ (exists r b,
        TS.cacheable r = true
        /\ journal h' = journal h ++ [Put TS.CACHE_NAME req r b]
        /\ detached h' = detached h
        /\ caches h' =
           if b then set_cache (caches h) TS.CACHE_NAME
                       (cache_store (entries (caches h) TS.CACHE_NAME) req r)
           else caches h).
Proof.
  unfold TS.run_job. unfold_sw.
  destruct (network w sent req) as [r|]; simpl; [|left; auto].
  destruct (TS.cacheable r) eqn:Hc; simpl; [|left; auto].
  right. exists r.
  destruct (store_full w (List.length (journal h)) req r); simpl.
  - exists false. auto.
  - exists true. auto.
Qed.

Lemma TS_intercept_cases w h req :
  let h' := snd (TS.fetch_listener req w h) in
  let h0 := opened TS.CACHE_NAME h in
  h' = h
  \/ (method req = "GET"
      /\ caches h' = caches h
      /\ journal h' = journal h ++ [Fetched req]
      /\ detached h' = detached h ++ [TS.Revalidate req (now_ h)])
  \/ (caches h' = caches h0
      /\ journal h' = journal h ++ [Fetched req]
      /\ detached h' = detached h)
  \/ (exists r b,
        method req = "GET" /\ TS.cacheable r = true
        /\ journal h' = journal h ++ [Fetched req] ++ [Put TS.CACHE_NAME req r b]
        /\ detached h' = detached h
        /\ caches h' =
           if b then set_cache (caches h0) TS.CACHE_NAME
                       (cache_store (entries (caches h0) TS.CACHE_NAME) req r)
           else caches h0).
Proof.
  cbv zeta. rewrite TS_fetch_listener_eq.
  destruct (isEligible w req) eqn:He; [|left; reflexivity].
  pose proof (eligible_is_get w req He) as Hget.
  unfold respondWith.
  assert (Hj : journal (opened TS.CACHE_NAME h) = journal h)
    by (unfold opened; destruct (get_cache (caches h) TS.CACHE_NAME); reflexivity).
  assert (Hd : detached (opened TS.CACHE_NAME h) = detached h)
    by (unfold opened; destruct (get_cache (caches h) TS.CACHE_NAME); reflexivity).
  destruct (TS_stored (caches h) req) as [c|] eqn:E.
  - rewrite (TS_handle_hit w h req c E). right; left. simpl. auto.
  - rewrite (TS_handle_miss w h req E). cbv zeta.
    destruct (network w (now_ h) req) as [r|].
    + destruct (TS.cacheable r) eqn:Hc.
      * right; right; right. exists r.
        destruct (store_full w (S (now_ h)) req r); simpl.
        -- exists false. rewrite Hj, Hd, <- app_assoc. auto.
        -- exists true. auto.
      * right; right; left. simpl. rewrite Hj, Hd. auto.
    + right; right; left. simpl. rewrite Hj, Hd. auto.
Qed.

Lemma TS_step_preserves w s h : TS_inv h -> TS_inv (step TS.worker w s h).
Proof.
  intros [Hj Hd]. destruct s as [req|n]; simpl.
  - destruct (TS_intercept_cases w h req)
      as [-> | [(Hg & _ & Ej & Ed) | [(_ & Ej & Ed) | (r & b & Hg & Hc & Ej & Ed & _)]]].
    + split; assumption.
    + split; [rewrite Ej | rewrite Ed]; apply Forall_snoc; simpl; auto.
    + split; [rewrite Ej | rewrite Ed]; [apply Forall_snoc; simpl|]; auto.
    + split; [rewrite Ej, app_assoc | rewrite Ed]; auto.
      apply Forall_snoc; [apply Forall_snoc|]; simpl; auto.
  - unfold settle. cbn [Job run_job TS.worker].
    destruct (nth_error (detached h) n) as [[req sent]|] eqn:En; [|split; assumption].
    pose proof (Forall_nth_error _ _ _ _ Hd En) as Hg. simpl in Hg.
    destruct (TS_run_job_cases w
                (mkHost (caches h) (journal h) (remove_nth n (detached h))) req sent)
      as [(_ & Ej & Ed) | (r & b & Hc & Ej & Ed & _)]; simpl in *.
    + split; [rewrite Ej | rewrite Ed]; auto using Forall_remove_nth.
    + split; [rewrite Ej | rewrite Ed]; auto using Forall_remove_nth.
      apply Forall_snoc; simpl; auto.
Qed.

Lemma TS_run_inv w steps h : TS_inv h -> TS_inv (run TS.worker w steps h).
Proof. apply (run_preserves TS.worker w TS_inv (TS_step_preserves w)). Qed.

Lemma TS_writes_only_cacheable : writes_only_cacheable TS.worker.
Proof.
  intros w cs steps.
  destruct (TS_run_inv w steps (boot TS.worker cs)) as [H _].
  { split; constructor. }
  eapply Forall_impl; [|exact H].
  intros [ | name key resp [|] | | | ]; simpl; auto.
  unfold TS.cacheable. intros [Hc _]. apply andb_true_iff in Hc. exact Hc.
Qed.

(** *** service-worker.js *)

Lemma JS_run_job_cases w h j :
  let h' := snd (JS.run_job j w h) in
  let h0 := opened JS.CACHE_NAME h in
  (caches h' = caches h /\ journal h' = journal h /\ detached h' = detached h)
  \/ (exists r b,
        journal h'
        = journal h
            ++ Put JS.CACHE_NAME (JS_job_req j) r b
               :: (if b then [] else [Unhandled WriteFailure])
        /\ detached h' = detached h
        /\ caches h' =
           if b then set_cache (caches h0) JS.CACHE_NAME
                       (cache_store (entries (caches h0) JS.CACHE_NAME)
                                    (JS_job_req j) r)
           else caches h0).
Proof.
  cbv zeta. destruct j as [req sent | req r]; unfold JS.run_job, opened; unfold_sw; simpl.
  - destruct (network w sent req) as [r|]; simpl; [|left; auto].
    destruct (status r =? 200)%Z; simpl; [|left; auto].
    right. exists r.
    destruct (get_cache (caches h) JS.CACHE_NAME); simpl;
      destruct (store_full w (List.length (journal h)) req r); simpl;
      [exists false | exists true | exists false | exists true];
      rewrite <- ?app_assoc; auto.
  - right. exists r.
    destruct (get_cache (caches h) JS.CACHE_NAME); simpl;
      destruct (store_full w (List.length (journal h)) req r); simpl;
      [exists false | exists true | exists false | exists true];
      rewrite <- ?app_assoc; auto.
Qed.

Lemma JS_intercept_cases w h req :
  let h' := snd (JS.fetch_listener req w h) in
  h' = h
  \/ (method req = "GET"
      /\ caches h' = caches h
      /\ journal h' = journal h ++ [Fetched req]
      /\ (detached h' = detached h
          \/ exists j, JS_job_req j = req /\ detached h' = detached h ++ [j])).
Proof.
  cbv zeta. rewrite JS_fetch_listener_eq.
  destruct (method req =? "GET") eqn:Hm; [|left; reflexivity].
  apply String.eqb_eq in Hm. right. split; [exact Hm|].
  unfold respondWith.
  destruct (JS_stored (caches h) req) as [c|] eqn:E.
  - rewrite (JS_handle_hit w h req c E). simpl.
    repeat split. right. exists (JS.Revalidate req (now_ h)). auto.
  - rewrite (JS_handle_miss w h req E).
    destruct (network w (now_ h) req) as [r|]; [|simpl; auto].
    destruct (negb (status r =? 200)%Z || negb (is_basic r)); simpl; [auto|].
    repeat split. right. exists (JS.Store req r). auto.
Qed.

Lemma JS_step_preserves w s h : JS_inv h -> JS_inv (step JS.worker w s h).
Proof.
  intros [Hj Hd]. destruct s as [req|n]; simpl.
  - destruct (JS_intercept_cases w h req)
      as [-> | (Hg & _ & Ej & [Ed | (j & Hreq & Ed)])].
    + split; assumption.
    + split; [rewrite Ej | rewrite Ed]; [apply Forall_snoc; simpl|]; auto.
    + split; [rewrite Ej | rewrite Ed]; apply Forall_snoc; simpl; auto.
      rewrite Hreq. exact Hg.
  - unfold settle. cbn [Job run_job JS.worker].
    destruct (nth_error (detached h) n) as [j|] eqn:En; [|split; assumption].
    pose proof (Forall_nth_error _ _ _ _ Hd En) as Hg. simpl in Hg.
    destruct (JS_run_job_cases w
                (mkHost (caches h) (journal h) (remove_nth n (detached h))) j)
      as [(_ & Ej & Ed) | (r & b & Ej & Ed & _)]; simpl in *.
    + split; [rewrite Ej | rewrite Ed]; auto using Forall_remove_nth.
    + split; [rewrite Ej | rewrite Ed]; auto using Forall_remove_nth.
      apply Forall_app. split; [exact Hj|].
      constructor; [exact Hg|]. destruct b; repeat constructor.
Qed.

Lemma JS_run_inv w steps h : JS_inv h -> JS_inv (run JS.worker w steps h).
Proof. apply (run_preserves JS.worker w JS_inv (JS_step_preserves w)). Qed.

(** ** Cacheability of what is written *)

(** C3 at the failing input, in service-worker.js: the request is in the
    store, and the revalidation fetch is answered 200 with a response of type
    cors.  The revalidation chain writes that response over the entry, while
    the MISS branch of the same script refuses to store the same response,
    and service-worker.ts stores only success-status basic responses on both
    paths. *)
Theorem JS_revalidation_stores_non_basic :
  let req := same_origin_get "/api/scans" in
  let moved := ok_cors "moved" in
  let h := boot JS.worker [(JS.CACHE_NAME, [(req, ok_basic "stale")])] in
  let h' := run JS.worker (answers_cors "moved") [Intercept req; Settle 0] h in
  is_basic moved = false
  /\ journal h' = [Fetched req; Put JS.CACHE_NAME req moved true]
  /\ caches h' = [(JS.CACHE_NAME, [(req, moved)])]
  /\ ~ writes_only_cacheable JS.worker
  /\ run JS.worker (answers_cors "moved") [Intercept req; Settle 0] (boot JS.worker [])
     = mkHost [] [Fetched req] []
  /\ writes_only_cacheable TS.worker.
Proof.
  cbv zeta. split; [reflexivity|]. split; [reflexivity|]. split; [reflexivity|].
  split; [|split; [reflexivity | exact TS_writes_only_cacheable]].
  intros H.
  specialize (H (answers_cors "moved")
                [(JS.CACHE_NAME, [(same_origin_get "/api/scans", ok_basic "stale")])]
                [Intercept (same_origin_get "/api/scans"); Settle 0]).
  apply Forall_inv_tail, Forall_inv in H. simpl in H.
  destruct H as [_ H]. discriminate H.
Qed.

(** ** A store write that fails on a MISS *)

Lemma existsb_snoc {A} (f : A -> bool) l x :
  existsb f l = false -> f x = false -> existsb f (l ++ [x]) = false.
Proof. intros Hl Hx. rewrite existsb_app, Hl. simpl. rewrite Hx. reflexivity. Qed.

Lemma TS_step_caught w s (h : Host TS.Job) :
  existsb is_unhandled (journal h) = false ->
  existsb is_unhandled (journal (step TS.worker w s h)) = false.
Proof.
  intros Hj. destruct s as [req|n]; simpl.
  - destruct (TS_intercept_cases w h req)
      as [-> | [(_ & _ & Ej & _) | [(_ & Ej & _) | (r & b & _ & _ & Ej & _)]]];
      [exact Hj | rewrite Ej .. ].
    + apply existsb_snoc; [exact Hj | reflexivity].
    + apply existsb_snoc; [exact Hj | reflexivity].
    + rewrite app_assoc.
      apply existsb_snoc; [apply existsb_snoc; [exact Hj|] |]; reflexivity.
  - unfold settle. cbn [Job run_job TS.worker].
    destruct (nth_error (detached h) n) as [[req sent]|] eqn:En; [|exact Hj].
    destruct (TS_run_job_cases w
                (mkHost (caches h) (journal h) (remove_nth n (detached h))) req sent)
      as [(_ & Ej & _) | (r & b & _ & Ej & _)]; simpl in *; rewrite Ej;
      [exact Hj | apply existsb_snoc; [exact Hj | reflexivity]].
Qed.

Lemma TS_every_rejection_caught : every_rejection_caught TS.worker.
Proof.
  intros w cs steps.
  apply (run_preserves TS.worker w
           (fun h => existsb is_unhandled (journal h) = false)
           (TS_step_caught w) steps (boot TS.worker cs)).
  reflexivity.
Qed.

(** C7, and where service-worker.js departs from it.  On a MISS whose fetch
    answers with a cacheable response [r], the caller gets [r] itself in both
    workers, for every behaviour of the store.  In service-worker.ts the
    write is attempted before the answer inside try/catch, and no run of that
    worker ever leaves a rejection unhandled.  In service-worker.js the write
    is left to a pending chain whose [cache.put] promise is not returned to
    the chain that carries the catch: when the store refuses the write, as at
    the input below (empty store, a GET for /api/scans answered 200/basic, a
    store that refuses every write), the rejection is caught by nobody and
    the host reports it as unhandled. *)
Theorem miss_store_failure_caught_in_ts_only :
  (forall w h req r,
      isEligible w req = true ->
      TS_stored (caches h) req = None ->
      network w (now_ h) req = Some r ->
      TS.cacheable r = true ->
      fst (TS.fetch_listener req w h) = Responded (Fulfilled r)
      /\ journal (snd (TS.fetch_listener req w h))
         = journal h
             ++ [Fetched req;
                 Put TS.CACHE_NAME req r (negb (store_full w (S (now_ h)) req r))])
  /\ every_rejection_caught TS.worker
  /\ (forall w h req r,
      method req = "GET" ->
      JS_stored (caches h) req = None ->
      network w (now_ h) req = Some r ->
      status r = 200%Z ->
      is_basic r = true ->
      JS.fetch_listener req w h =
      (Responded (Fulfilled r),
       mkHost (caches h) (journal h ++ [Fetched req])
              (detached h ++ [JS.Store req r]))
      /\ forall w' h',
          fst (JS.run_job (JS.Store req r) w' h') = Fulfilled tt
          /\ journal (snd (JS.run_job (JS.Store req r) w' h'))
             = journal h'
                 ++ floating_put JS.CACHE_NAME req r (store_full w' (now_ h') req r))
  /\ run JS.worker (store_always_full "fresh")
         [Intercept (same_origin_get "/api/scans"); Settle 0] (boot JS.worker [])
     = mkHost [(JS.CACHE_NAME, [])]
              [Fetched (same_origin_get "/api/scans");
               Put JS.CACHE_NAME (same_origin_get "/api/scans") (ok_basic "fresh") false;
               Unhandled WriteFailure]
              []
  /\ ~ every_rejection_caught JS.worker.
Proof.
  split; [|split; [exact TS_every_rejection_caught | split; [|split]]].
  - intros w h req r He Hmiss Hnet Hc.
    apply TS_miss_cacheable; assumption.
  - intros w h req r Hget Hmiss Hnet Hs Hb. split.
    + rewrite (JS_on_fetch_get w h req Hget). unfold respondWith.
      rewrite (JS_handle_miss w h req Hmiss), Hnet, Hs, Hb. reflexivity.
    + intros w' h'. apply JS_run_store_job.
  - reflexivity.
  - intros H.
    specialize (H (store_always_full "fresh") []
                  [Intercept (same_origin_get "/api/scans"); Settle 0]).
    vm_compute in H. discriminate H.
Qed.

Lemma miss_store_failure_caught_in_ts_only_witness :
  let req := same_origin_get "/api/scans" in
  (fst (TS.fetch_listener req (store_always_full "fresh") (boot TS.worker []))
   = Responded (Fulfilled (ok_basic "fresh"))
   /\ journal (snd (TS.fetch_listener req (store_always_full "fresh")
                      (boot TS.worker [])))
      = [Fetched req; Put TS.CACHE_NAME req (ok_basic "fresh") false])
  /\ fst (JS.fetch_listener req (store_always_full "fresh") (boot JS.worker []))
     = Responded (Fulfilled (ok_basic "fresh")).
Proof.
  split.
  - apply (proj1 miss_store_failure_caught_in_ts_only
             (store_always_full "fresh") (boot TS.worker [])
             (same_origin_get "/api/scans") (ok_basic "fresh"));
      reflexivity.
  - rewrite (proj1 (proj1 (proj2 (proj2 miss_store_failure_caught_in_ts_only))
             (store_always_full "fresh") (boot JS.worker [])
             (same_origin_get "/api/scans") (ok_basic "fresh")
             eq_refl eq_refl eq_refl eq_refl eq_refl)).
    reflexivity.
Defined.

(** ** GET keys *)

Lemma get_keyed_entries cs name :
  get_keyed cs -> Forall (fun kv => method (fst kv) = "GET") (entries cs name).
Proof.
  unfold entries. intros H.
  induction cs as [|[n c] rest IH]; simpl; [constructor|].
  inversion H; subst. destruct (n =? name); [assumption | apply IH; assumption].
Qed.

Lemma get_keyed_set_cache cs name c :
  get_keyed cs -> Forall (fun kv => method (fst kv) = "GET") c ->
  get_keyed (set_cache cs name c).
Proof.
  unfold get_keyed. intros H Hc.
  induction cs as [|[n c0] rest IH]; simpl.
  - constructor; [exact Hc | constructor].
  - inversion H; subst. destruct (n =? name); constructor; auto.
Qed.

Lemma get_keyed_cache_store c key resp :
  Forall (fun kv => method (fst kv) = "GET") c -> method key = "GET" ->
  Forall (fun kv : Request * Response => method (fst kv) = "GET")
         (cache_store c key resp).
Proof.
  intros Hc Hk. unfold cache_store. apply Forall_snoc; [|exact Hk].
  rewrite Forall_forall in *. intros kv Hin.
  apply filter_In in Hin. apply Hc, Hin.
Qed.

Lemma get_keyed_opened {J} name (h : Host J) :
  get_keyed (caches h) -> get_keyed (caches (opened name h)).
Proof.
  intros H. unfold opened. destruct (get_cache (caches h) name); simpl;
    [exact H | apply get_keyed_set_cache; [exact H | constructor]].
Qed.

Lemma get_keyed_write {J} name (h : Host J) key resp (b : bool) :
  get_keyed (caches h) -> method key = "GET" ->
  get_keyed (if b
             then set_cache (caches (opened name h)) name
                    (cache_store (entries (caches (opened name h)) name) key resp)
             else caches (opened name h)).
Proof.
  intros H Hk. pose proof (get_keyed_opened name h H) as H0.
  destruct b; [|exact H0].
  apply get_keyed_set_cache; [exact H0|].
  apply get_keyed_cache_store; [apply get_keyed_entries, H0 | exact Hk].
Qed.

Lemma TS_step_keeps_get_keyed w s h :
  get_keyed (caches h) /\ Forall TS_job_get (detached h) ->
  get_keyed (caches (step TS.worker w s h))
  /\ Forall TS_job_get (detached (step TS.worker w s h)).
Proof.
  intros [Hc Hd]. destruct s as [req|n]; simpl.
  - destruct (TS_intercept_cases w h req)
      as [-> | [(Hg & Ec & _ & Ed) | [(Ec & _ & Ed) | (r & b & Hg & _ & _ & Ed & Ec)]]].
    + split; assumption.
    + rewrite Ec, Ed. split; [exact Hc | apply Forall_snoc; simpl; auto].
    + rewrite Ec, Ed. split; [apply get_keyed_opened, Hc | exact Hd].
    + rewrite Ec, Ed. split; [apply get_keyed_write; assumption | exact Hd].
  - unfold settle. cbn [Job run_job TS.worker].
    destruct (nth_error (detached h) n) as [[req sent]|] eqn:En; [|split; assumption].
    pose proof (Forall_nth_error _ _ _ _ Hd En) as Hg. simpl in Hg.
    destruct (TS_run_job_cases w
                (mkHost (caches h) (journal h) (remove_nth n (detached h))) req sent)
      as [(Ec & _ & Ed) | (r & b & _ & _ & Ed & Ec)]; simpl in *;
      rewrite Ec, Ed; (split; [|apply Forall_remove_nth, Hd]).
    + exact Hc.
    + destruct b; [|exact Hc].
      apply get_keyed_set_cache; [exact Hc|].
      apply get_keyed_cache_store; [apply get_keyed_entries, Hc | exact Hg].
Qed.

Lemma JS_step_keeps_get_keyed w s h :
  get_keyed (caches h) /\ Forall (fun j => method (JS_job_req j) = "GET") (detached h) ->
  get_keyed (caches (step JS.worker w s h))
  /\ Forall (fun j => method (JS_job_req j) = "GET") (detached (step JS.worker w s h)).
Proof.
  intros [Hc Hd]. destruct s as [req|n]; simpl.
  - destruct (JS_intercept_cases w h req)
      as [-> | (Hg & Ec & _ & [Ed | (j & Hreq & Ed)])].
    + split; assumption.
    + rewrite Ec, Ed. split; assumption.
    + rewrite Ec, Ed. split; [exact Hc|].
      apply Forall_snoc; [exact Hd | rewrite Hreq; exact Hg].
  - unfold settle. cbn [Job run_job JS.worker].
    destruct (nth_error (detached h) n) as [j|] eqn:En; [|split; assumption].
    pose proof (Forall_nth_error _ _ _ _ Hd En) as Hg. simpl in Hg.
    destruct (JS_run_job_cases w
                (mkHost (caches h) (journal h) (remove_nth n (detached h))) j)
      as [(Ec & _ & Ed) | (r & b & _ & Ed & Ec)];
      rewrite Ec, Ed; (split; [|apply Forall_remove_nth, Hd]).
    + exact Hc.
    + apply (get_keyed_write JS.CACHE_NAME
               (mkHost (caches h) (journal h) (remove_nth n (detached h)))
               (JS_job_req j) r b); assumption.
Qed.

(** C9: in both workers, whatever the requests and the order in which
    pending chains settle, every write attempt made through the interception
    path is keyed by a GET request, and a store whose entries are all keyed by
    GET requests stays so. *)
Theorem interception_writes_are_get_keyed :
  (forall w cs steps,
      Forall writes_get_key (journal (run TS.worker w steps (boot TS.worker cs))))
  /\ (forall w cs steps,
      Forall writes_get_key (journal (run JS.worker w steps (boot JS.worker cs))))
  /\ (forall w cs steps,
      get_keyed cs -> get_keyed (caches (run TS.worker w steps (boot TS.worker cs))))
  /\ (forall w cs steps,
      get_keyed cs -> get_keyed (caches (run JS.worker w steps (boot JS.worker cs)))).
Proof.
  repeat split.
  - intros w cs steps.
    destruct (TS_run_inv w steps (boot TS.worker cs)) as [H _];
      [split; constructor|].
    eapply Forall_impl; [|exact H].
    intros [ | name key resp b | | | ]; simpl; tauto.
  - intros w cs steps.
    destruct (JS_run_inv w steps (boot JS.worker cs)) as [H _];
      [split; constructor|]. exact H.
  - intros w cs steps Hcs.
    apply (run_preserves TS.worker w
             (fun h => get_keyed (caches h) /\ Forall TS_job_get (detached h))
             (TS_step_keeps_get_keyed w) steps (boot TS.worker cs)).
    split; [exact Hcs | constructor].
  - intros w cs steps Hcs.
    apply (run_preserves JS.worker w
             (fun h => get_keyed (caches h)
                       /\ Forall (fun j => method (JS_job_req j) = "GET") (detached h))
             (JS_step_keeps_get_keyed w) steps (boot JS.worker cs)).
    split; [exact Hcs | constructor].
Qed.

Lemma interception_writes_are_get_keyed_witness :
  let req := same_origin_get "/api/scans" in
  let post := mkRequest "POST" (url req) in
  let steps := [Intercept post; Intercept req; Settle 0; Intercept req; Settle 0] in
  get_keyed (caches (run TS.worker (online "fresh") steps (boot TS.worker [])))
  /\ get_keyed (caches (run JS.worker (online "fresh") steps (boot JS.worker []))).
Proof.
  split.
  - apply (proj1 (proj2 (proj2 interception_writes_are_get_keyed))). constructor.
  - apply (proj2 (proj2 (proj2 interception_writes_are_get_keyed))). constructor.
Defined.

(** ** HIT idempotence *)

Lemma skipn_past {A} (l extra : list A) : skipn (List.length l) (l ++ extra) = extra.
Proof. induction l as [|x l IH]; simpl; [reflexivity | exact IH]. Qed.

Lemma storage_match_set_cache cs name c q :
  cache_match c q = cache_match (entries cs name) q ->
  storage_match (set_cache cs name c) q = storage_match cs q.
Proof.
  unfold entries. induction cs as [|[n c0] rest IH]; simpl; intros H.
  - rewrite H. reflexivity.
  - destruct (n =? name); simpl.
    + rewrite H. reflexivity.
    + rewrite (IH H). reflexivity.
Qed.

Lemma TS_stored_opened {J} (h : Host J) q :
  TS_stored (caches (opened TS.CACHE_NAME h)) q = TS_stored (caches h) q.
Proof.
  unfold TS_stored, opened.
  destruct (get_cache (caches h) TS.CACHE_NAME) eqn:E; simpl; [reflexivity|].
  rewrite entries_set_cache_same, entries_absent by exact E. reflexivity.
Qed.

Lemma JS_stored_opened {J} (h : Host J) q :
  JS_stored (caches (opened JS.CACHE_NAME h)) q = JS_stored (caches h) q.
Proof.
  unfold JS_stored, opened.
  destruct (get_cache (caches h) JS.CACHE_NAME) eqn:E; simpl; [reflexivity|].
  apply storage_match_set_cache. rewrite entries_absent by exact E. reflexivity.
Qed.

Lemma TS_stored_write cs key resp (b : bool) q :
  rewrites q (Put TS.CACHE_NAME key resp b) = false ->
  TS_stored (if b then set_cache cs TS.CACHE_NAME
                         (cache_store (entries cs TS.CACHE_NAME) key resp)
             else cs) q
  = TS_stored cs q.
Proof.
  destruct b; simpl; [|reflexivity]. intros Hne.
  unfold TS_stored. rewrite entries_set_cache_same.
  apply cache_match_store_other, Hne.
Qed.

Lemma JS_stored_write cs key resp (b : bool) q :
  rewrites q (Put JS.CACHE_NAME key resp b) = false ->
  JS_stored (if b then set_cache cs JS.CACHE_NAME
                         (cache_store (entries cs JS.CACHE_NAME) key resp)
             else cs) q
  = JS_stored cs q.
Proof.
  destruct b; simpl; [|reflexivity]. intros Hne.
  unfold JS_stored. apply storage_match_set_cache.
  apply cache_match_store_other, Hne.
Qed.

(** One step changes what a lookup of [q] finds only by a successful write
    under the URL of [q]. *)
Lemma TS_step_frame w q s (h : Host TS.Job) :
  exists extra,
    journal (step TS.worker w s h) = journal h ++ extra
    /\ (existsb (rewrites q) extra = false ->
        TS_stored (caches (step TS.worker w s h)) q = TS_stored (caches h) q).
Proof.
  destruct s as [req|n]; simpl.
  - destruct (TS_intercept_cases w h req)
      as [-> | [(_ & Ec & Ej & _) | [(Ec & Ej & _) | (r & b & _ & _ & Ej & _ & Ec)]]].
    + exists []. rewrite app_nil_r. auto.
    + exists [Fetched req]. rewrite Ec. auto.
    + exists [Fetched req]. rewrite Ec. split; [exact Ej|].
      intros _. apply TS_stored_opened.
    + exists ([Fetched req] ++ [Put TS.CACHE_NAME req r b]). split; [exact Ej|].
      simpl. rewrite orb_false_r. intros Hne. rewrite Ec.
      rewrite TS_stored_write by exact Hne. apply TS_stored_opened.
  - unfold settle. cbn [Job run_job TS.worker].
    destruct (nth_error (detached h) n) as [[req sent]|] eqn:En.
    2:{ exists []. rewrite app_nil_r. split; [reflexivity | intros _; reflexivity]. }
    destruct (TS_run_job_cases w
                (mkHost (caches h) (journal h) (remove_nth n (detached h))) req sent)
      as [(Ec & Ej & _) | (r & b & _ & Ej & _ & Ec)]; simpl in *.
    + exists []. rewrite app_nil_r, Ec. auto.
    + exists [Put TS.CACHE_NAME req r b]. split; [exact Ej|].
      simpl. rewrite orb_false_r. intros Hne. rewrite Ec.
      apply TS_stored_write, Hne.
Qed.

Lemma JS_step_frame w q s (h : Host JS.Job) :
  exists extra,
    journal (step JS.worker w s h) = journal h ++ extra
    /\ (existsb (rewrites q) extra = false ->
        JS_stored (caches (step JS.worker w s h)) q = JS_stored (caches h) q).
Proof.
  destruct s as [req|n]; simpl.
  - destruct (JS_intercept_cases w h req) as [-> | (_ & Ec & Ej & _)].
    + exists []. rewrite app_nil_r. auto.
    + exists [Fetched req]. rewrite Ec. auto.
  - unfold settle. cbn [Job run_job JS.worker].
    destruct (nth_error (detached h) n) as [j|] eqn:En.
    2:{ exists []. rewrite app_nil_r. split; [reflexivity | intros _; reflexivity]. }
    destruct (JS_run_job_cases w
                (mkHost (caches h) (journal h) (remove_nth n (detached h))) j)
      as [(Ec & Ej & _) | (r & b & Ej & _ & Ec)].
    + exists []. rewrite app_nil_r, Ec. auto.
    + exists (Put JS.CACHE_NAME (JS_job_req j) r b
              :: (if b then [] else [Unhandled WriteFailure])).
      split; [exact Ej|].
      intros Hne. rewrite Ec.
      assert (Hne' : rewrites q (Put JS.CACHE_NAME (JS_job_req j) r b) = false).
      { simpl in Hne. apply orb_false_iff in Hne. exact (proj1 Hne). }
      rewrite JS_stored_write by exact Hne'.
      apply (JS_stored_opened
               (mkHost (caches h) (journal h) (remove_nth n (detached h)))).
Qed.

Section RunFrame.
Variable W : Worker.
Variable w : World.
Variable stored : CacheStorage -> Request -> option Response.
Variable q : Request.
Hypothesis StepFrame : forall s h,
  exists extra,
    journal (step W w s h) = journal h ++ extra
    /\ (existsb (rewrites q) extra = false ->
        stored (caches (step W w s h)) q = stored (caches h) q).

Lemma run_extends steps : forall h,
  exists extra,
    journal (run W w steps h) = journal h ++ extra
    /\ (existsb (rewrites q) extra = false ->
        stored (caches (run W w steps h)) q = stored (caches h) q).
Proof.
  induction steps as [|s steps IH]; intros h; simpl.
  - exists []. rewrite app_nil_r. auto.
  - destruct (StepFrame s h) as (e1 & Ej1 & Hf1).
    destruct (IH (step W w s h)) as (e2 & Ej2 & Hf2).
    exists (e1 ++ e2). split.
    + rewrite Ej2, Ej1, app_assoc. reflexivity.
    + rewrite existsb_app. intros Hne. apply orb_false_iff in Hne.
      destruct Hne as [H1 H2]. rewrite (Hf2 H2). apply Hf1, H1.
Qed.

Lemma run_frame steps h :
  existsb (rewrites q) (since h (run W w steps h)) = false ->
  stored (caches (run W w steps h)) q = stored (caches h) q.
Proof.
  destruct (run_extends steps h) as (extra & Ej & Hf).
  unfold since, now_. rewrite Ej, skipn_past. exact Hf.
Qed.
End RunFrame.

Lemma TS_answers_hit w req cached n : forall h,
  isEligible w req = true ->
  TS_stored (caches h) req = Some cached ->
  answers TS.worker w req n h = repeat (Responded (Fulfilled cached)) n.
Proof.
  induction n as [|n IH]; intros h He Hhit; simpl; [reflexivity|].
  rewrite (TS_on_fetch_eligible w h req He). unfold respondWith.
  rewrite (TS_handle_hit w h req cached Hhit). simpl.
  f_equal. apply IH; assumption.
Qed.

Lemma JS_answers_hit w req cached n : forall h,
  method req = "GET" ->
  JS_stored (caches h) req = Some cached ->
  answers JS.worker w req n h = repeat (Responded (Fulfilled cached)) n.
Proof.
  induction n as [|n IH]; intros h Hget Hhit; simpl; [reflexivity|].
  rewrite (JS_on_fetch_get w h req Hget). unfold respondWith.
  rewrite (JS_handle_hit w h req cached Hhit). simpl.
  f_equal. apply IH; assumption.
Qed.

(** C8: when the request is in the store, any number of identical requests
    in a row are all answered with the stored response; and after any
    interleaving of other interceptions and settling chains, the answer is
    still that response unless, since then, a write under the URL of the
    request has succeeded.  In service-worker.ts for eligible requests, in
    service-worker.js for GET requests. *)
Theorem hit_idempotence :
  (forall w h req cached,
      isEligible w req = true ->
      TS_stored (caches h) req = Some cached ->
      (forall n,
          answers TS.worker w req n h = repeat (Responded (Fulfilled cached)) n)
      /\ (forall steps,
          existsb (rewrites req) (since h (run TS.worker w steps h)) = false ->
          fst (TS.fetch_listener req w (run TS.worker w steps h))
          = Responded (Fulfilled cached)))
  /\ (forall w h req cached,
      method req = "GET" ->
      JS_stored (caches h) req = Some cached ->
      (forall n,
          answers JS.worker w req n h = repeat (Responded (Fulfilled cached)) n)
      /\ (forall steps,
          existsb (rewrites req) (since h (run JS.worker w steps h)) = false ->
          fst (JS.fetch_listener req w (run JS.worker w steps h))
          = Responded (Fulfilled cached))).
Proof.
  split.
  - intros w h req cached He Hhit. split.
    + intros n. apply TS_answers_hit; assumption.
    + intros steps Hquiet.
      pose proof (run_frame TS.worker w TS_stored req (TS_step_frame w req)
                    steps h Hquiet) as Hsame.
      rewrite Hhit in Hsame.
      rewrite (TS_on_fetch_eligible w _ req He). unfold respondWith.
      cbn [Job TS.worker] in *.
      rewrite (TS_handle_hit w _ req cached Hsame). reflexivity.
  - intros w h req cached Hget Hhit. split.
    + intros n. apply JS_answers_hit; assumption.
    + intros steps Hquiet.
      pose proof (run_frame JS.worker w JS_stored req (JS_step_frame w req)
                    steps h Hquiet) as Hsame.
      rewrite Hhit in Hsame.
      rewrite (JS_on_fetch_get w _ req Hget). unfold respondWith.
      cbn [Job JS.worker] in *.
      rewrite (JS_handle_hit w _ req cached Hsame). reflexivity.
Qed.

Lemma hit_idempotence_witness :
  let req := same_origin_get "/api/scans" in
  let other := same_origin_get "/api/network/map" in
  let h := boot TS.worker [(TS.CACHE_NAME, [(req, ok_basic "stale")])] in
  answers TS.worker (online "fresh") req 3 h
  = repeat (Responded (Fulfilled (ok_basic "stale"))) 3
  /\ fst (TS.fetch_listener req (online "fresh")
            (run TS.worker (online "fresh") [Intercept other; Intercept req] h))
     = Responded (Fulfilled (ok_basic "stale")).
Proof.
  split.
  - apply (proj1 (proj1 hit_idempotence (online "fresh")
                    (boot TS.worker
                       [(TS.CACHE_NAME,
                         [(same_origin_get "/api/scans", ok_basic "stale")])])
                    (same_origin_get "/api/scans") (ok_basic "stale")
                    eq_refl eq_refl)).
  - apply (proj2 (proj1 hit_idempotence (online "fresh")
                    (boot TS.worker
                       [(TS.CACHE_NAME,
                         [(same_origin_get "/api/scans", ok_basic "stale")])])
                    (same_origin_get "/api/scans") (ok_basic "stale")
                    eq_refl eq_refl)).
    reflexivity.
Defined.

(** Once the revalidation chain has settled, the entry is the fresh
    response, in both workers. *)
Example revalidation_overwrites_entry :
  let req := same_origin_get "/api/scans" in
  let steps := [Intercept req; Settle 0] in
  TS_stored (caches (run TS.worker (online "fresh") steps
                       (boot TS.worker [(TS.CACHE_NAME, [(req, ok_basic "stale")])])))
            req
  = Some (ok_basic "fresh")
  /\ JS_stored (caches (run JS.worker (online "fresh") steps
                          (boot JS.worker [(JS.CACHE_NAME, [(req, ok_basic "stale")])])))
               req
     = Some (ok_basic "fresh").
Proof. split; reflexivity. Qed.

(** ** Activation *)

Lemma host_eta {J} (h : Host J) : mkHost (caches h) (journal h) (detached h) = h.
Proof. destruct h; reflexivity. Qed.

Lemma filter_all {A} (f : A -> bool) l :
  (forall x, In x l -> f x = true) -> filter f l = l.
Proof.
  induction l as [|x l IH]; simpl; intros H; [reflexivity|].
  rewrite (H x (or_introl eq_refl)). f_equal. apply IH. intros y Hy. apply H. right. exact Hy.
Qed.

Lemma filter_filter {A} (f g : A -> bool) l :
  filter f (filter g l) = filter (fun x => g x && f x) l.
Proof.
  induction l as [|x l IH]; simpl; [reflexivity|].
  destruct (g x); simpl; [destruct (f x)|]; rewrite IH; reflexivity.
Qed.

(** The loop of the activate listener over the names [names]: a cache
    survives when it is the current one or is not in the list. *)
Lemma JS_sweep w names : forall h : Host JS.Job,
  for_each (fun cacheName =>
              if negb (cacheName =? JS.CACHE_NAME)
              then caches_delete cacheName
              else ret tt) names w h
  = (Fulfilled tt,
     mkHost (filter (fun nc => (fst nc =? JS.CACHE_NAME)
                               || negb (existsb (String.eqb (fst nc)) names))
                    (caches h))
            (journal h) (detached h)).
Proof.
  induction names as [|n names IH]; intros h; simpl.
  - unfold ret. rewrite filter_all by (intros; apply orb_true_r).
    rewrite host_eta. reflexivity.
  - unfold bind.
    destruct (n =? JS.CACHE_NAME) eqn:En; simpl.
    + rewrite IH. f_equal. f_equal. apply filter_ext. intros [m c]. simpl.
      apply String.eqb_eq in En. subst n.
      destruct (m =? JS.CACHE_NAME); reflexivity.
    + rewrite IH. simpl. unfold delete_cache. rewrite filter_filter.
      f_equal. f_equal. apply filter_ext. intros [m c]. simpl.
      destruct (m =? n) eqn:Emn; simpl; [|reflexivity].
      apply String.eqb_eq in Emn. subst m. rewrite En. reflexivity.
Qed.

Lemma JS_activate_eq w (h : Host JS.Job) :
  JS.activate w h
  = (Fulfilled tt,
     mkHost (filter (fun nc => fst nc =? JS.CACHE_NAME) (caches h))
            (journal h ++ [ClaimedClients]) (detached h)).
Proof.
  unfold JS.activate, bind at 1, caches_keys. unfold bind. rewrite JS_sweep.
  unfold effect, record. simpl. f_equal. f_equal.
  apply filter_ext_in. intros [m c] Hin. simpl.
  replace (existsb (String.eqb m) (cache_names (caches h))) with true;
    [apply orb_false_r|].
  symmetry. apply existsb_exists. exists m. split; [|apply String.eqb_refl].
  unfold cache_names. apply in_map_iff. exists (m, c). auto.
Qed.

Lemma cache_names_filter cs (f : string -> bool) :
  cache_names (filter (fun nc => f (fst nc)) cs) = filter f (cache_names cs).
Proof.
  unfold cache_names. induction cs as [|[n c] rest IH]; simpl; [reflexivity|].
  destruct (f n); simpl; rewrite IH; reflexivity.
Qed.

Lemma filter_eqb_absent name l :
  ~ In name l -> filter (fun n => n =? name) l = [].
Proof.
  induction l as [|x l IH]; simpl; intros H; [reflexivity|].
  destruct (x =? name) eqn:E.
  - apply String.eqb_eq in E. exfalso. apply H. left. exact E.
  - apply IH. intros Hin. apply H. right. exact Hin.
Qed.

Lemma filter_eqb_nodup name l :
  NoDup l -> In name l -> filter (fun n => n =? name) l = [name].
Proof.
  induction l as [|x l IH]; simpl; intros Hnd Hin; [contradiction|].
  inversion Hnd as [|? ? Hx Hl]; subst.
  destruct (x =? name) eqn:E.
  - apply String.eqb_eq in E. subst x. f_equal. apply filter_eqb_absent, Hx.
  - destruct Hin as [Hin|Hin]; [|apply IH; assumption].
    apply String.eqb_neq in E. contradiction.
Qed.

Lemma get_cache_present cs name :
  In name (cache_names cs) -> exists c, get_cache cs name = Some c.
Proof.
  induction cs as [|[n c] rest IH]; simpl; intros H; [contradiction|].
  destruct (n =? name) eqn:E; [exists c; reflexivity|].
  destruct H as [H|H]; [|apply IH, H].
  apply String.eqb_neq in E. contradiction.
Qed.

Lemma get_cache_absent cs name :
  get_cache cs name = None -> ~ In name (cache_names cs).
Proof.
  intros H Hin. destruct (get_cache_present cs name Hin) as [c Hc]. congruence.
Qed.

Lemma cache_names_set_cache cs name c :
  cache_names (set_cache cs name c)
  = match get_cache cs name with
    | Some _ => cache_names cs
    | None => cache_names cs ++ [name]
    end.
Proof.
  induction cs as [|[n c0] rest IH]; simpl; [reflexivity|].
  destruct (n =? name); simpl; [reflexivity|].
  rewrite IH. destruct (get_cache rest name); reflexivity.
Qed.

Lemma has_cache_set_cache name cs c :
  has_cache name cs -> has_cache name (set_cache cs name c).
Proof.
  intros [Hnd Hin]. unfold has_cache. rewrite cache_names_set_cache.
  destruct (get_cache_present cs name Hin) as [c0 ->]. split; assumption.
Qed.

Lemma has_cache_opened {J} name (h : Host J) :
  NoDup (cache_names (caches h)) -> has_cache name (caches (opened name h)).
Proof.
  intros Hnd. unfold opened, has_cache.
  destruct (get_cache (caches h) name) eqn:E; simpl.
  - split; [exact Hnd|].
    destruct (in_dec string_dec name (cache_names (caches h))) as [Hin|Hout];
      [exact Hin|].
    exfalso. clear Hnd. induction (caches h) as [|[n c0] rest IH]; simpl in *;
      [discriminate|].
    destruct (n =? name) eqn:En.
    + apply String.eqb_eq in En. tauto.
    + apply IH; [exact E | tauto].
  - rewrite cache_names_set_cache, E. split.
    + apply NoDup_app; [exact Hnd | constructor; [intros []|constructor] |].
      intros x Hx [<-|[]]. exact (get_cache_absent _ _ E Hx).
    + apply in_or_app. right. left. reflexivity.
Qed.

(** ** Installation *)

(** One [cache.add(url).catch(...)] of the install listener of
    service-worker.js, from the arrival of the response. *)
Lemma JS_try_add w (h : Host JS.Job) s u :
  let h' := snd (JS.add_caught JS.CACHE_NAME (s, u) w h) in
  fst (JS.add_caught JS.CACHE_NAME (s, u) w h) = Fulfilled tt
  /\ (forall r, preload_valid w u r ->
      caches h' = set_cache (caches h) JS.CACHE_NAME
                    (cache_store (entries (caches h) JS.CACHE_NAME)
                                 (request_of_url w u) r))
  /\ (preload_invalid w u -> caches h' = caches h)
  /\ (caches h' = caches h
      \/ exists r, caches h' = set_cache (caches h) JS.CACHE_NAME
                     (cache_store (entries (caches h) JS.CACHE_NAME)
                                  (request_of_url w u) r)).
Proof.
  cbv zeta. unfold JS.add_caught, cache_add_settle. unfold_sw. simpl.
  destruct (network w s (request_of_url w u)) as [r|] eqn:En; simpl.
  - destruct (ok r) eqn:Hok; simpl.
    + destruct (store_full w (List.length (journal h)) (request_of_url w u) r)
        eqn:Hf; simpl.
      * split; [reflexivity|]. split; [|split; [auto | left; reflexivity]].
        intros r' (_ & Hn & Hs). rewrite Hn in En. injection En as ->.
        rewrite Hs in Hf. discriminate.
      * split; [reflexivity|]. split; [|split; [|right; exists r; reflexivity]].
        -- intros r' (_ & Hn & _). rewrite Hn in En. injection En as ->. reflexivity.
        -- intros Hbad. specialize (Hbad s). rewrite En in Hbad. congruence.
    + split; [reflexivity|]. split; [|split; [auto | left; reflexivity]].
      intros r' (Hok' & Hn & _). rewrite Hn in En. injection En as ->. congruence.
  - split; [reflexivity|]. split; [|split; [auto | left; reflexivity]].
    intros r' (_ & Hn & _). rewrite Hn in En. discriminate.
Qed.

Lemma append_inj_l (p a b : string) : (p ++ a)%string = (p ++ b)%string -> a = b.
Proof.
  induction p as [|c p IH]; simpl; intros H; [exact H|].
  injection H as H. apply IH, H.
Qed.

Lemma request_of_url_href_neq w a b :
  a <> b ->
  (href_no_hash (url (request_of_url w a)) =? href_no_hash (url (request_of_url w b))) = false.
Proof.
  intros Hne. apply String.eqb_neq. simpl. intros H.
  apply Hne, (append_inj_l _ _ _ H).
Qed.

Lemma preload_valid_not_invalid w u r :
  preload_valid w u r -> preload_invalid w u -> False.
Proof.
  intros (Hok & Hn & _) Hbad. specialize (Hbad 0). rewrite Hn in Hbad. congruence.
Qed.

Lemma JS_try_add_frame w (h : Host JS.Job) s x u :
  u <> x ->
  JS_preloaded (caches (snd (JS.add_caught JS.CACHE_NAME (s, x) w h))) w u
  = JS_preloaded (caches h) w u.
Proof.
  intros Hne. destruct (JS_try_add w h s x) as (_ & _ & _ & [-> | [r ->]]);
    [reflexivity|].
  unfold JS_preloaded. rewrite entries_set_cache_same.
  apply cache_match_store_other, request_of_url_href_neq.
  intros E. apply Hne. symmetry. exact E.
Qed.

Lemma JS_preload_loop w pairs : forall h : Host JS.Job,
  let m := for_each (JS.add_caught JS.CACHE_NAME) pairs in
  fst (m w h) = Fulfilled tt
  /\ forall u,
      (forall r, preload_valid w u r ->
                 In u (map snd pairs) \/ JS_preloaded (caches h) w u = Some r ->
                 JS_preloaded (caches (snd (m w h))) w u = Some r)
      /\ (preload_invalid w u ->
          JS_preloaded (caches (snd (m w h))) w u = JS_preloaded (caches h) w u).
Proof.
  induction pairs as [|[s x] pairs IH]; intros h; cbv zeta; simpl.
  - split; [reflexivity|]. intros u. split; [|reflexivity].
    intros r _ [[]|H]. exact H.
  - unfold bind.
    pose proof (JS_try_add w h s x) as (Hf & Hval & Hinv & _).
    pose proof (fun u => JS_try_add_frame w h s x u) as Hframe.
    destruct (JS.add_caught JS.CACHE_NAME (s, x) w h) as [res h1].
    simpl in Hf, Hval, Hinv, Hframe. subst res.
    destruct (IH h1) as [IHf IHu]. split; [exact IHf|].
    intros u. destruct (IHu u) as [IHv IHi]. split.
    + intros r Hv Hor. apply (IHv r Hv).
      destruct (string_dec u x) as [->|Hne].
      * right. rewrite (Hval r Hv). unfold JS_preloaded.
        rewrite entries_set_cache_same. apply cache_match_store_same. reflexivity.
      * destruct Hor as [[Hx|Hin]|Hst].
        -- congruence.
        -- left. exact Hin.
        -- right. rewrite (Hframe u Hne). exact Hst.
    + intros Hbad. rewrite (IHi Hbad).
      destruct (string_dec u x) as [->|Hne].
      * rewrite (Hinv Hbad). reflexivity.
      * apply Hframe, Hne.
Qed.

Lemma journal_opened {J} name (h : Host J) : journal (opened name h) = journal h.
Proof. unfold opened. destruct (get_cache (caches h) name); reflexivity. Qed.

Lemma detached_opened {J} name (h : Host J) : detached (opened name h) = detached h.
Proof. unfold opened. destruct (get_cache (caches h) name); reflexivity. Qed.

Lemma entries_opened {J} name (h : Host J) :
  entries (caches (opened name h)) name = entries (caches h) name.
Proof.
  unfold opened. destruct (get_cache (caches h) name) eqn:E; simpl; [reflexivity|].
  rewrite entries_set_cache_same, entries_absent by exact E. reflexivity.
Qed.

Lemma caches_open_opened {J} name w (h : Host J) :
  caches_open name w h = (Fulfilled name, opened name h).
Proof.
  unfold caches_open, opened. destruct (get_cache (caches h) name); reflexivity.
Qed.

(** Every [cache.add] call of the install listener sends its request;
    nothing else changes. *)
Lemma collect_add_dispatch {J} w urls : forall h : Host J,
  exists sents,
    List.length sents = List.length urls
    /\ collect cache_add_dispatch urls w h
       = (Fulfilled sents,
          mkHost (caches h)
                 (journal h ++ map Fetched (map (request_of_url w) urls))
                 (detached h)).
Proof.
  induction urls as [|u urls IH]; intros h; simpl.
  - exists []. split; [reflexivity|]. unfold ret. rewrite app_nil_r.
    destruct h; reflexivity.
  - destruct (IH (record (Fetched (request_of_url w u)) h)) as (sents & Hl & E).
    exists (now_ h :: sents). split; [simpl; rewrite Hl; reflexivity|].
    remember (collect cache_add_dispatch urls) as rest eqn:Erest.
    unfold bind, cache_add_dispatch, fetch_dispatch, ret.
    rewrite E. simpl. rewrite <- app_assoc. reflexivity.
Qed.

Lemma map_snd_combine_same {A B} (xs : list A) : forall ys : list B,
  List.length xs = List.length ys -> map snd (combine xs ys) = ys.
Proof.
  induction xs as [|x xs IH]; intros [|y ys] H; simpl in *; try discriminate;
    [reflexivity | f_equal; apply IH; lia].
Qed.

(** The host once the install listener has made its [cache.add] calls. *)
Lemma JS_install_of_eq w urls (h : Host JS.Job) :
  exists sents,
    List.length sents = List.length urls
    /\ JS.install_of urls w h
       = (Fulfilled tt,
          record SkippedWaiting
            (snd (for_each (JS.add_caught JS.CACHE_NAME) (combine sents urls) w
                    (mkHost (caches (opened JS.CACHE_NAME h))
                       (journal h ++ map Fetched (map (request_of_url w) urls))
                       (detached h))))).
Proof.
  destruct (collect_add_dispatch w urls (opened JS.CACHE_NAME h)) as (sents & Hl & E).
  rewrite journal_opened, detached_opened in E.
  exists sents. split; [exact Hl|].
  unfold JS.install_of, try_catch at 1, bind at 1. rewrite caches_open_opened.
  unfold bind at 1. rewrite E. unfold bind.
  destruct (JS_preload_loop w (combine sents urls)
              (mkHost (caches (opened JS.CACHE_NAME h))
                 (journal h ++ map Fetched (map (request_of_url w) urls))
                 (detached h))) as [Hf _].
  cbv zeta in Hf.
  destruct (for_each _ (combine sents urls) w _) as [res h1].
  simpl in Hf. subst res. reflexivity.
Qed.

Lemma JS_preload_loop_has_cache w pairs : forall h : Host JS.Job,
  has_cache JS.CACHE_NAME (caches h) ->
  has_cache JS.CACHE_NAME
    (caches (snd (for_each (JS.add_caught JS.CACHE_NAME) pairs w h))).
Proof.
  induction pairs as [|[s x] pairs IH]; intros h Hh; simpl; [exact Hh|].
  unfold bind.
  pose proof (JS_try_add w h s x) as (Hf & _ & _ & Hc).
  destruct (JS.add_caught JS.CACHE_NAME (s, x) w h) as [res h1].
  simpl in Hf, Hc. subst res. apply IH.
  destruct Hc as [-> | [r ->]]; [exact Hh | apply has_cache_set_cache, Hh].
Qed.

Lemma JS_install_has_cache w urls (h : Host JS.Job) :
  NoDup (cache_names (caches h)) ->
  has_cache JS.CACHE_NAME (caches (snd (JS.install_of urls w h))).
Proof.
  intros Hnd. destruct (JS_install_of_eq w urls h) as (sents & _ & ->). simpl.
  apply JS_preload_loop_has_cache. simpl. apply has_cache_opened, Hnd.
Qed.

Lemma JS_activation_leaves_only_current :
  activation_leaves_only_current JS.worker JS.CACHE_NAME.
Proof.
  intros w cs Hnd. simpl.
  destruct (JS_install_has_cache w JS.urlsToCache (boot JS.worker cs) Hnd)
    as [Hnd' Hin].
  fold JS.install in Hnd', Hin. rewrite JS_activate_eq. simpl.
  rewrite (cache_names_filter _ (fun n => n =? JS.CACHE_NAME)).
  apply filter_eqb_nodup; assumption.
Qed.

(** C4, as stated, fails for service-worker.ts, which registers no activate
    listener: a cache left by an earlier version is still there after
    installation and activation. *)
Lemma TS_activation_keeps_stale_cache :
  let cs := [("nexa-security-cache-v0", [])] in
  cache_names
    (caches (snd (on_activate TS.worker offline
                    (snd (on_install TS.worker offline (boot TS.worker cs))))))
  = ["nexa-security-cache-v0"; TS.CACHE_NAME]
  /\ ~ activation_leaves_only_current TS.worker TS.CACHE_NAME.
Proof.
  split; [reflexivity|]. intros H.
  specialize (H offline [("nexa-security-cache-v0", [])]).
  assert (Hnd : NoDup (cache_names [("nexa-security-cache-v0", @nil (Request * Response))])).
  { constructor; [intros [] | constructor]. }
  specialize (H Hnd). vm_compute in H. discriminate H.
Qed.

(** C4 (amended): in service-worker.js activation keeps exactly the caches
    named by the current version string and deletes every other one, so at
    most the current namespace is left, and exactly that one when it exists
    at activation, as it does after installation; its entries are untouched.
    service-worker.ts has no activate listener: activation there deletes
    nothing. *)
Theorem activation_sweeps_stale_caches :
  (forall w (h : Host JS.Job),
      JS.activate w h
      = (Fulfilled tt,
         mkHost (filter (fun nc => fst nc =? JS.CACHE_NAME) (caches h))
                (journal h ++ [ClaimedClients]) (detached h)))
  /\ (forall w (h : Host JS.Job),
      has_cache JS.CACHE_NAME (caches h) ->
      cache_names (caches (snd (JS.activate w h))) = [JS.CACHE_NAME]
      /\ entries (caches (snd (JS.activate w h))) JS.CACHE_NAME
         = entries (caches h) JS.CACHE_NAME)
  /\ activation_leaves_only_current JS.worker JS.CACHE_NAME
  /\ (forall w (h : Host TS.Job), TS.activate w h = (Fulfilled tt, h)).
Proof.
  split; [exact JS_activate_eq|].
  split; [|split; [exact JS_activation_leaves_only_current | reflexivity]].
  intros w h [Hnd Hin]. rewrite JS_activate_eq. simpl. split.
  - rewrite (cache_names_filter _ (fun n => n =? JS.CACHE_NAME)).
    apply filter_eqb_nodup; assumption.
  - unfold entries. clear Hnd Hin.
    induction (caches h) as [|[n c] rest IH]; simpl; [reflexivity|].
    destruct (n =? JS.CACHE_NAME) eqn:E; simpl; [rewrite E; reflexivity | exact IH].
Qed.

Lemma activation_sweeps_stale_caches_witness :
  let h := boot JS.worker
             [("nexa-security-cache-v0", [(same_origin_get "/", ok_basic "old")]);
              (JS.CACHE_NAME, [(same_origin_get "/", ok_basic "new")]);
              ("workbox-precache", [])] in
  cache_names (caches (snd (JS.activate offline h))) = [JS.CACHE_NAME]
  /\ entries (caches (snd (JS.activate offline h))) JS.CACHE_NAME
     = [(same_origin_get "/", ok_basic "new")].
Proof.
  apply (proj1 (proj2 activation_sweeps_stale_caches)).
  split.
  - repeat constructor; simpl; intuition discriminate.
  - simpl. auto.
Defined.

(** [cache.addAll]: sending the requests does not touch the store. *)
Lemma collect_dispatch {J} w reqs : forall h : Host J,
  exists sents,
    fst (collect fetch_dispatch reqs w h) = Fulfilled sents
    /\ caches (snd (collect fetch_dispatch reqs w h)) = caches h
    /\ List.length sents = List.length reqs.
Proof.
  induction reqs as [|req reqs IH]; intros h; simpl.
  - exists []. auto.
  - destruct (IH (record (Fetched req) h)) as (sents & Hf & Hc & Hl).
    remember (collect fetch_dispatch reqs) as rest eqn:Erest.
    unfold bind, fetch_dispatch, ret.
    destruct (rest w (record (Fetched req) h)) as [res h1].
    simpl in *. subst res. exists (now_ h :: sents). simpl. auto.
Qed.

(** Settling the fetches changes nothing in the host, and the responses are
    the network's answers to the requests, in order. *)
Lemma collect_settle {J} w pairs : forall h : Host J,
  snd (collect (fun sr => fetch_settle (fst sr) (snd sr)) pairs w h) = h
  /\ forall resps,
      fst (collect (fun sr => fetch_settle (fst sr) (snd sr)) pairs w h)
      = Fulfilled resps ->
      Forall2 (fun sr resp => network w (fst sr) (snd sr) = Some resp) pairs resps.
Proof.
  induction pairs as [|[s req] pairs IH]; intros h; simpl.
  - split; [reflexivity|]. intros resps H. injection H as <-. constructor.
  - destruct (IH h) as [Hs Hr].
    remember (collect (fun sr => fetch_settle (fst sr) (snd sr)) pairs) as rest
      eqn:Erest.
    unfold bind, fetch_settle, ret. simpl.
    destruct (network w s req) as [r|] eqn:En; simpl.
    + destruct (rest w h) as [[rs|e] h1]; simpl in *.
      * split; [exact Hs|]. intros resps H. injection H as <-.
        constructor; [exact En | apply Hr; reflexivity].
      * split; [exact Hs|]. intros resps H. discriminate H.
    + split; [reflexivity|]. intros resps H. discriminate H.
Qed.

Lemma in_combine_right {A B} (y : B) : forall (xs : list A) (ys : list B),
  List.length xs = List.length ys -> In y ys -> exists x, In (x, y) (combine xs ys).
Proof.
  induction xs as [|x xs IH]; intros [|y0 ys] Hl Hin; simpl in *;
    try contradiction; try discriminate.
  destruct Hin as [->|Hin].
  - exists x. left. reflexivity.
  - destruct (IH ys (eq_add_S _ _ Hl) Hin) as [x' Hx']. exists x'. right. exact Hx'.
Qed.

Lemma Forall2_in_left {A B} (P : A -> B -> Prop) xs ys x :
  Forall2 P xs ys -> In x xs -> exists y, In y ys /\ P x y.
Proof.
  induction 1 as [|x0 y0 xs ys Hp _ IH]; intros Hin; [contradiction|].
  destruct Hin as [->|Hin].
  - exists y0. split; [left; reflexivity | exact Hp].
  - destruct (IH Hin) as (y & Hy & Hpy). exists y. split; [right; exact Hy | exact Hpy].
Qed.

(** [cache.addAll] is all or nothing: a rejection leaves the store as it
    was, and one invalid URL makes it reject. *)
Lemma cache_addAll_rejected {J} name urls w (h : Host J) e :
  fst (cache_addAll name urls w h) = Rejected e ->
  caches (snd (cache_addAll name urls w h)) = caches h.
Proof.
  unfold cache_addAll. cbv zeta. unfold bind.
  destruct (collect_dispatch w (map (request_of_url w) urls) h) as (sents & Hf & Hc & _).
  destruct (collect fetch_dispatch (map (request_of_url w) urls) w h) as [res h1].
  simpl in Hf, Hc. subst res.
  destruct (collect_settle w (combine sents (map (request_of_url w) urls)) h1)
    as [Hs _].
  destruct (collect _ (combine sents (map (request_of_url w) urls)) w h1)
    as [[resps|e'] h2]; simpl in Hs; subst h2; simpl; [|intros _; exact Hc].
  destruct (forallb ok resps); [|unfold throw; simpl; intros _; exact Hc].
  destruct (for_each _ (combine (map (request_of_url w) urls) resps) w h1)
    as [[u|e'] h3]; simpl; [discriminate | intros _; exact Hc].
Qed.

Lemma cache_addAll_invalid {J} name urls w (h : Host J) u :
  In u urls -> preload_invalid w u ->
  exists e, fst (cache_addAll name urls w h) = Rejected e.
Proof.
  intros Hin Hbad. unfold cache_addAll. cbv zeta. unfold bind.
  destruct (collect_dispatch w (map (request_of_url w) urls) h) as (sents & Hf & _ & Hl).
  destruct (collect fetch_dispatch (map (request_of_url w) urls) w h) as [res h1].
  simpl in Hf. subst res.
  destruct (collect_settle w (combine sents (map (request_of_url w) urls)) h1)
    as [_ Hr].
  destruct (collect _ (combine sents (map (request_of_url w) urls)) w h1)
    as [[resps|e'] h2]; simpl; [|exists e'; reflexivity].
  specialize (Hr resps eq_refl).
  destruct (in_combine_right (request_of_url w u) sents (map (request_of_url w) urls) Hl
              (in_map _ _ _ Hin)) as [s Hs].
  destruct (Forall2_in_left _ _ _ _ Hr Hs) as (resp & Hresp & Hnet). simpl in Hnet.
  specialize (Hbad s). rewrite Hnet in Hbad.
  assert (Hall : forallb ok resps = false).
  { destruct (forallb ok resps) eqn:E; [|reflexivity].
    rewrite forallb_forall in E. rewrite (E resp Hresp) in Hbad. discriminate. }
  rewrite Hall. exists BadStatus. reflexivity.
Qed.

Lemma TS_install_of_cases w urls (h : Host TS.Job) :
  fst (TS.install_of urls w h) = Fulfilled tt
  /\ ((exists e, fst (cache_addAll TS.CACHE_NAME urls w (opened TS.CACHE_NAME h))
                 = Rejected e) ->
      caches (snd (TS.install_of urls w h)) = caches (opened TS.CACHE_NAME h)).
Proof.
  unfold TS.install_of, try_catch, bind. rewrite caches_open_opened.
  pose proof (cache_addAll_rejected TS.CACHE_NAME urls w (opened TS.CACHE_NAME h))
    as Hrej.
  destruct (cache_addAll TS.CACHE_NAME urls w (opened TS.CACHE_NAME h))
    as [[[]|e] h1]; simpl in *.
  - split; [reflexivity|]. intros [e He]. discriminate He.
  - split; [reflexivity|]. intros _. apply (Hrej e eq_refl).
Qed.

Lemma JS_install_of_preloads w urls (h : Host JS.Job) :
  fst (JS.install_of urls w h) = Fulfilled tt
  /\ forall u,
      (forall r, In u urls -> preload_valid w u r ->
                 JS_preloaded (caches (snd (JS.install_of urls w h))) w u = Some r)
      /\ (preload_invalid w u ->
          JS_preloaded (caches (snd (JS.install_of urls w h))) w u
          = JS_preloaded (caches h) w u).
Proof.
  destruct (JS_install_of_eq w urls h) as (sents & Hl & ->). simpl.
  split; [reflexivity|]. intros u.
  destruct (JS_preload_loop w (combine sents urls)
              (mkHost (caches (opened JS.CACHE_NAME h))
                 (journal h ++ map Fetched (map (request_of_url w) urls))
                 (detached h))) as [_ Hu].
  cbv zeta in Hu. destruct (Hu u) as [Hv Hi]. split.
  - intros r Hin Hval. apply (Hv r Hval). left.
    rewrite (map_snd_combine_same sents urls Hl). exact Hin.
  - intros Hbad. rewrite (Hi Hbad). unfold JS_preloaded. simpl.
    rewrite entries_opened. reflexivity.
Qed.

Lemma JS_preload_is_per_entry : preload_is_per_entry JS.install_of JS.CACHE_NAME.
Proof.
  intros w h bad good r Hbad Hgood.
  destruct (JS_install_of_preloads w [bad; good] h) as [Hf Hu].
  split; [exact Hf|]. split.
  - apply (proj1 (Hu good) r); [right; left; reflexivity | exact Hgood].
  - apply (proj2 (Hu bad) Hbad).
Qed.

(** C5, as stated, fails for service-worker.ts, whose install listener
    preloads with one cache.addAll: with /api/network/map unreachable and
    /api/scans served, installation completes but nothing is stored, not
    even the entry of the valid URL. *)
Lemma TS_preload_is_all_or_nothing :
  preload_invalid map_route_down "/api/network/map"
  /\ preload_valid map_route_down "/api/scans" (ok_basic "served")
  /\ TS.install map_route_down (boot TS.worker [])
     = (Fulfilled tt,
        mkHost [(TS.CACHE_NAME, [])]
               [Fetched (request_of_url map_route_down "/api/network/map");
                Fetched (request_of_url map_route_down "/api/scans")]
               [])
  /\ ~ preload_is_per_entry TS.install_of TS.CACHE_NAME.
Proof.
  assert (Hbad : preload_invalid map_route_down "/api/network/map")
    by (intros t; exact I).
  assert (Hgood : preload_valid map_route_down "/api/scans" (ok_basic "served"))
    by (repeat split).
  split; [exact Hbad|]. split; [exact Hgood|]. split; [reflexivity|].
  intros H.
  destruct (H map_route_down (boot TS.worker []) "/api/network/map" "/api/scans"
              (ok_basic "served") Hbad Hgood) as (_ & Hstored & _).
  vm_compute in Hstored. discriminate Hstored.
Qed.

(** C5 (amended): in service-worker.js each preload URL is added and caught
    on its own: installation always completes, every valid URL of the
    PreloadSet has its entry in the store afterwards, and an invalid URL
    leaves the store's answer for it as it was; in particular for one invalid
    and one valid URL.  In service-worker.ts the PreloadSet is added with one
    cache.addAll: installation always completes as well, but when any URL of
    the set is invalid nothing is stored. *)
Theorem preload_per_worker :
  (forall w (h : Host JS.Job) urls,
      fst (JS.install_of urls w h) = Fulfilled tt
      /\ forall u,
          (forall r, In u urls -> preload_valid w u r ->
                     JS_preloaded (caches (snd (JS.install_of urls w h))) w u = Some r)
          /\ (preload_invalid w u ->
              JS_preloaded (caches (snd (JS.install_of urls w h))) w u
              = JS_preloaded (caches h) w u))
  /\ preload_is_per_entry JS.install_of JS.CACHE_NAME
  /\ (forall w (h : Host TS.Job) urls,
      fst (TS.install_of urls w h) = Fulfilled tt
      /\ ((exists u, In u urls /\ preload_invalid w u) ->
          caches (snd (TS.install_of urls w h)) = caches (opened TS.CACHE_NAME h))).
Proof.
  split; [intros w h urls; apply JS_install_of_preloads|].
  split; [exact JS_preload_is_per_entry|].
  intros w h urls. destruct (TS_install_of_cases w urls h) as [Hf Hc].
  split; [exact Hf|]. intros (u & Hin & Hbad). apply Hc.
  apply (cache_addAll_invalid TS.CACHE_NAME urls w (opened TS.CACHE_NAME h) u Hin Hbad).
Qed.

Lemma preload_per_worker_witness :
  let h := JS.install_of ["/api/network/map"; "/api/scans"] map_route_down
             (boot JS.worker []) in
  fst h = Fulfilled tt
  /\ JS_preloaded (caches (snd h)) map_route_down "/api/scans"
     = Some (ok_basic "served")
  /\ JS_preloaded (caches (snd h)) map_route_down "/api/network/map" = None.
Proof.
  assert (Hbad : preload_invalid map_route_down "/api/network/map")
    by (intros t; exact I).
  assert (Hgood : preload_valid map_route_down "/api/scans" (ok_basic "served"))
    by (repeat split).
  exact (proj1 (proj2 preload_per_worker) map_route_down (boot JS.worker [])
           "/api/network/map" "/api/scans" (ok_basic "served") Hbad Hgood).
Defined.

(** * Further properties of the two workers *)

(** ** A MISS that is not cacheable *)

Lemma skipn_since {J} (h h' : Host J) extra :
  journal h' = journal h ++ extra -> since h h' = extra.
Proof. intros E. unfold since, now_. rewrite E. apply skipn_past. Qed.

(** X1: a MISS whose fetch is answered with a response that the worker does
    not consider cacheable (service-worker.ts: not ok or not basic;
    service-worker.js: status other than 200 or not basic) is answered with
    that response unmodified; no write is attempted, no chain is left
    pending, and every lookup finds afterwards what it found before. *)
Theorem miss_not_cacheable_is_not_stored :
  (forall w (h : Host TS.Job) req r,
      isEligible w req = true ->
      TS_stored (caches h) req = None ->
      network w (now_ h) req = Some r ->
      TS.cacheable r = false ->
      TS.fetch_listener req w h
      = (Responded (Fulfilled r), record (Fetched req) (opened TS.CACHE_NAME h))
      /\ forall q, TS_stored (caches (snd (TS.fetch_listener req w h))) q
                   = TS_stored (caches h) q)
  /\ (forall w (h : Host JS.Job) req r,
      method req = "GET" ->
      JS_stored (caches h) req = None ->
      network w (now_ h) req = Some r ->
      JS_cacheable r = false ->
      JS.fetch_listener req w h = (Responded (Fulfilled r), record (Fetched req) h)).
Proof.
  split.
  - intros w h req r He Hmiss Hnet Hc.
    rewrite (TS_on_fetch_eligible w h req He). unfold respondWith.
    rewrite (TS_handle_miss w h req Hmiss). cbv zeta. rewrite Hnet, Hc.
    split; [reflexivity|]. intros q. simpl. apply TS_stored_opened.
  - intros w h req r Hget Hmiss Hnet Hc.
    rewrite (JS_on_fetch_get w h req Hget). unfold respondWith.
    rewrite (JS_handle_miss w h req Hmiss), Hnet.
    unfold JS_cacheable in Hc. apply andb_false_iff in Hc.
    replace (negb (status r =? 200)%Z || negb (is_basic r)) with true;
      [reflexivity|].
    symmetry. apply orb_true_iff.
    destruct Hc as [-> | ->]; [left | right]; reflexivity.
Qed.

Lemma miss_not_cacheable_is_not_stored_witness :
  let req := same_origin_get "/api/scans" in
  let not_found := mkResponse 404 "Not Found" basic "" in
  let w := mkWorld worker_location (fun _ _ => Some not_found) (fun _ _ _ => false) in
  TS.fetch_listener req w (boot TS.worker [])
  = (Responded (Fulfilled not_found),
     mkHost [(TS.CACHE_NAME, [])] [Fetched req] [])
  /\ JS.fetch_listener req w (boot JS.worker [])
     = (Responded (Fulfilled not_found), mkHost [] [Fetched req] []).
Proof.
  split.
  - apply (proj1 (proj1 miss_not_cacheable_is_not_stored
                    (mkWorld worker_location
                       (fun _ _ => Some (mkResponse 404 "Not Found" basic ""))
                       (fun _ _ _ => false))
                    (boot TS.worker []) (same_origin_get "/api/scans")
                    (mkResponse 404 "Not Found" basic "")
                    eq_refl eq_refl eq_refl eq_refl)).
  - apply (proj2 miss_not_cacheable_is_not_stored
             (mkWorld worker_location
                (fun _ _ => Some (mkResponse 404 "Not Found" basic ""))
                (fun _ _ _ => false))
             (boot JS.worker []) (same_origin_get "/api/scans")
             (mkResponse 404 "Not Found" basic "")); reflexivity.
Defined.

(** ** Network traffic *)

Lemma fetches_app es es' : fetches (es ++ es') = fetches es ++ fetches es'.
Proof.
  induction es as [|[req| | | | ] es IH]; simpl; rewrite ?IH; reflexivity.
Qed.

Lemma TS_intercept_journal w (h : Host TS.Job) req :
  exists extra,
    journal (snd (TS.fetch_listener req w h)) = journal h ++ extra
    /\ fetches extra
       = if engine_invoked (fst (TS.fetch_listener req w h)) then [req] else [].
Proof.
  rewrite TS_fetch_listener_eq.
  destruct (isEligible w req) eqn:He.
  2:{ exists []. rewrite app_nil_r. split; reflexivity. }
  unfold respondWith. destruct (TS_stored (caches h) req) as [c|] eqn:E.
  - rewrite (TS_handle_hit w h req c E). exists [Fetched req]. split; reflexivity.
  - rewrite (TS_handle_miss w h req E). cbv zeta.
    destruct (network w (now_ h) req) as [r|].
    + destruct (TS.cacheable r).
      * destruct (store_full w (S (now_ h)) req r); simpl.
        -- exists [Fetched req; Put TS.CACHE_NAME req r false].
           rewrite journal_opened, <- app_assoc. split; reflexivity.
        -- exists [Fetched req; Put TS.CACHE_NAME req r true]. split; reflexivity.
      * exists [Fetched req]. simpl. rewrite journal_opened. split; reflexivity.
    + exists [Fetched req]. simpl. rewrite journal_opened. split; reflexivity.
Qed.

Lemma JS_intercept_journal w (h : Host JS.Job) req :
  exists extra,
    journal (snd (JS.fetch_listener req w h)) = journal h ++ extra
    /\ fetches extra
       = if engine_invoked (fst (JS.fetch_listener req w h)) then [req] else [].
Proof.
  rewrite JS_fetch_listener_eq.
  destruct (method req =? "GET") eqn:Hm.
  2:{ exists []. rewrite app_nil_r. split; reflexivity. }
  unfold respondWith. destruct (JS_stored (caches h) req) as [c|] eqn:E.
  - rewrite (JS_handle_hit w h req c E). exists [Fetched req]. split; reflexivity.
  - rewrite (JS_handle_miss w h req E).
    destruct (network w (now_ h) req) as [r|].
    + destruct (negb (status r =? 200)%Z || negb (is_basic r));
        exists [Fetched req]; split; reflexivity.
    + exists [Fetched req]. split; reflexivity.
Qed.

(** X2: one interception puts exactly one request on the wire, the
    intercepted one, when the engine is invoked (HIT or MISS alike), and none
    when the request is passed through; in both workers. *)
Theorem one_fetch_per_engine_invocation :
  (forall w (h : Host TS.Job) req,
      fetches (since h (snd (TS.fetch_listener req w h)))
      = if engine_invoked (fst (TS.fetch_listener req w h)) then [req] else [])
  /\ (forall w (h : Host JS.Job) req,
      fetches (since h (snd (JS.fetch_listener req w h)))
      = if engine_invoked (fst (JS.fetch_listener req w h)) then [req] else []).
Proof.
  split; intros w h req.
  - destruct (TS_intercept_journal w h req) as (extra & Ej & Hf).
    rewrite (skipn_since _ _ _ Ej). exact Hf.
  - destruct (JS_intercept_journal w h req) as (extra & Ej & Hf).
    rewrite (skipn_since _ _ _ Ej). exact Hf.
Qed.

(** ** Pending chains *)

Lemma remove_nth_none {A} n : forall xs : list A,
  nth_error xs n = None -> remove_nth n xs = xs.
Proof.
  induction n as [|n IH]; intros [|x xs] H; simpl in *; try reflexivity;
    try discriminate.
  f_equal. apply IH, H.
Qed.

Lemma TS_settle_cases w n (h : Host TS.Job) :
  detached (settle TS.worker n w h) = remove_nth n (detached h)
  /\ exists extra,
      journal (settle TS.worker n w h) = journal h ++ extra /\ fetches extra = [].
Proof.
  unfold settle. cbn [Job run_job TS.worker].
  destruct (nth_error (detached h) n) as [[req sent]|] eqn:En.
  - destruct (TS_run_job_cases w
                (mkHost (caches h) (journal h) (remove_nth n (detached h))) req sent)
      as [(_ & Ej & Ed) | (r & b & _ & Ej & Ed & _)]; simpl in *.
    + split; [exact Ed|]. exists []. rewrite app_nil_r. auto.
    + split; [exact Ed|]. exists [Put TS.CACHE_NAME req r b]. auto.
  - split; [symmetry; apply remove_nth_none, En|].
    exists []. rewrite app_nil_r. auto.
Qed.

Lemma JS_settle_cases w n (h : Host JS.Job) :
  detached (settle JS.worker n w h) = remove_nth n (detached h)
  /\ exists extra,
      journal (settle JS.worker n w h) = journal h ++ extra /\ fetches extra = [].
Proof.
  unfold settle. cbn [Job run_job JS.worker].
  destruct (nth_error (detached h) n) as [j|] eqn:En.
  - destruct (JS_run_job_cases w
                (mkHost (caches h) (journal h) (remove_nth n (detached h))) j)
      as [(_ & Ej & Ed) | (r & b & Ej & Ed & _)]; simpl in *.
    + split; [exact Ed|]. exists []. rewrite app_nil_r. auto.
    + split; [exact Ed|].
      exists (Put JS.CACHE_NAME (JS_job_req j) r b
              :: (if b then [] else [Unhandled WriteFailure])).
      split; [exact Ej | destruct b; reflexivity].
  - split; [symmetry; apply remove_nth_none, En|].
    exists []. rewrite app_nil_r. auto.
Qed.

Section Drain.
Variable W : Worker.
Variable w : World.
Hypothesis SettleRemoves : forall n h,
  detached (settle W n w h) = remove_nth n (detached h).

Lemma drain_empties fuel : forall h,
  List.length (detached h) <= fuel -> detached (drain W w fuel h) = [].
Proof.
  induction fuel as [|fuel IH]; intros h Hl; simpl.
  - destruct (detached h); [reflexivity | simpl in Hl; lia].
  - apply IH. rewrite SettleRemoves.
    destruct (detached h) as [|j js]; simpl in *; lia.
Qed.
End Drain.

(** X3: a settling chain never puts a request on the wire and never starts
    another chain: settling removes exactly the chain that settled, so once
    as many chains have settled as were pending none is left; in both
    workers. *)
Theorem settling_never_fetches_nor_spawns :
  (forall w n (h : Host TS.Job),
      detached (settle TS.worker n w h) = remove_nth n (detached h)
      /\ fetches (since h (settle TS.worker n w h)) = []
      /\ detached (drain TS.worker w (List.length (detached h)) h) = [])
  /\ (forall w n (h : Host JS.Job),
      detached (settle JS.worker n w h) = remove_nth n (detached h)
      /\ fetches (since h (settle JS.worker n w h)) = []
      /\ detached (drain JS.worker w (List.length (detached h)) h) = []).
Proof.
  split; intros w n h.
  - destruct (TS_settle_cases w n h) as (Hd & extra & Ej & Hf).
    split; [exact Hd|].
    split; [rewrite <- Hf; f_equal; apply (skipn_since _ _ _ Ej)|].
    apply (drain_empties TS.worker w
             (fun n h => proj1 (TS_settle_cases w n h))). apply le_n.
  - destruct (JS_settle_cases w n h) as (Hd & extra & Ej & Hf).
    split; [exact Hd|].
    split; [rewrite <- Hf; f_equal; apply (skipn_since _ _ _ Ej)|].
    apply (drain_empties JS.worker w
             (fun n h => proj1 (JS_settle_cases w n h))). apply le_n.
Qed.

(** ** Stale-while-revalidate, end to end *)

Lemma nth_error_last {A} (l : list A) x : nth_error (l ++ [x]) (List.length l) = Some x.
Proof. induction l as [|y l IH]; simpl; [reflexivity | exact IH]. Qed.

Lemma remove_nth_last {A} (l : list A) x : remove_nth (List.length l) (l ++ [x]) = l.
Proof. induction l as [|y l IH]; simpl; [reflexivity | f_equal; exact IH]. Qed.

Lemma set_cache_twice cs name a b :
  set_cache (set_cache cs name a) name b = set_cache cs name b.
Proof.
  induction cs as [|[n c] rest IH]; simpl.
  - rewrite String.eqb_refl. reflexivity.
  - destruct (n =? name) eqn:E; simpl; rewrite E; [reflexivity | f_equal; exact IH].
Qed.

Lemma set_cache_opened {J} name (h : Host J) c :
  set_cache (caches (opened name h)) name c = set_cache (caches h) name c.
Proof.
  unfold opened. destruct (get_cache (caches h) name); simpl;
    [reflexivity | apply set_cache_twice].
Qed.

(** The host after a HIT and after the revalidation chain it started has
    settled, in service-worker.ts. *)
Lemma TS_hit_then_settle w (h : Host TS.Job) req cached :
  isEligible w req = true ->
  TS_stored (caches h) req = Some cached ->
  settle TS.worker (List.length (detached h)) w (snd (TS.fetch_listener req w h))
  = match network w (now_ h) req with
    | Some r =>
        if TS.cacheable r
        then if store_full w (S (now_ h)) req r
             then mkHost (caches h)
                         (journal h ++ [Fetched req; Put TS.CACHE_NAME req r false])
                         (detached h)
             else mkHost (set_cache (caches h) TS.CACHE_NAME
                            (cache_store (entries (caches h) TS.CACHE_NAME) req r))
                         (journal h ++ [Fetched req; Put TS.CACHE_NAME req r true])
                         (detached h)
        else mkHost (caches h) (journal h ++ [Fetched req]) (detached h)
    | None => mkHost (caches h) (journal h ++ [Fetched req]) (detached h)
    end.
Proof.
  intros He Hhit.
  rewrite (TS_on_fetch_eligible w h req He). unfold respondWith.
  rewrite (TS_handle_hit w h req cached Hhit). simpl.
  unfold settle. cbn [Job run_job TS.worker detached caches journal].
  rewrite nth_error_last, remove_nth_last.
  unfold TS.run_job. unfold_sw. simpl.
  destruct (network w (List.length (journal h)) req) as [r|]; simpl; [|reflexivity].
  destruct (TS.cacheable r); simpl; [|reflexivity].
  rewrite length_app. simpl. rewrite Nat.add_1_r.
  destruct (store_full w (S (List.length (journal h))) req r); simpl;
    rewrite <- app_assoc; reflexivity.
Qed.

Lemma JS_hit_then_settle w (h : Host JS.Job) req cached :
  method req = "GET" ->
  JS_stored (caches h) req = Some cached ->
  settle JS.worker (List.length (detached h)) w (snd (JS.fetch_listener req w h))
  = match network w (now_ h) req with
    | Some r =>
        if (status r =? 200)%Z
        then if store_full w (S (now_ h)) req r
             then mkHost (caches (opened JS.CACHE_NAME h))
                         (journal h ++ [Fetched req; Put JS.CACHE_NAME req r false;
                                      Unhandled WriteFailure])
                         (detached h)
             else mkHost (set_cache (caches h) JS.CACHE_NAME
                            (cache_store (entries (caches h) JS.CACHE_NAME) req r))
                         (journal h ++ [Fetched req; Put JS.CACHE_NAME req r true])
                         (detached h)
        else mkHost (caches h) (journal h ++ [Fetched req]) (detached h)
    | None => mkHost (caches h) (journal h ++ [Fetched req]) (detached h)
    end.
Proof.
  intros Hget Hhit.
  rewrite (JS_on_fetch_get w h req Hget). unfold respondWith.
  rewrite (JS_handle_hit w h req cached Hhit). simpl.
  unfold settle. cbn [Job run_job JS.worker detached caches journal].
  rewrite nth_error_last, remove_nth_last.
  pose proof (set_cache_opened JS.CACHE_NAME h) as Hset.
  pose proof (entries_opened JS.CACHE_NAME h) as Hent.
  unfold JS.run_job, opened in *. unfold_sw. simpl.
  destruct (network w (List.length (journal h)) req) as [r|]; simpl; [|reflexivity].
  destruct (status r =? 200)%Z; simpl; [|reflexivity].
  destruct (get_cache (caches h) JS.CACHE_NAME) eqn:E; simpl in *;
    rewrite length_app; simpl; rewrite Nat.add_1_r;
    destruct (store_full w (S (List.length (journal h))) req r); simpl;
    rewrite <- ?app_assoc; simpl; try reflexivity.
  rewrite Hset, Hent. reflexivity.
Qed.

Lemma storage_match_written cs name req r :
  method req = "GET" ->
  only_in name cs req ->
  storage_match (set_cache cs name (cache_store (entries cs name) req r)) req = Some r.
Proof.
  intros Hget Honly. unfold entries.
  induction cs as [|[n c] rest IH]; cbn [set_cache get_cache storage_match].
  - rewrite (cache_match_store_same [] req r Hget). reflexivity.
  - destruct (n =? name) eqn:E; cbn [storage_match].
    + rewrite (cache_match_store_same c req r Hget). reflexivity.
    + apply String.eqb_neq in E.
      rewrite (Honly n c (or_introl eq_refl) E).
      apply IH. intros n' c' Hin. apply Honly. right. exact Hin.
Qed.

(** X4: stale-while-revalidate refreshes.  After a HIT, when the chain it
    started settles with a response that passes the worker's test
    (service-worker.ts: ok and basic; service-worker.js: status 200) and the
    store accepts the write, the same request is answered with the fresh
    response from then on, and nothing is left pending.  In
    service-worker.js, whose lookup searches every cache of the origin, this
    needs that no other cache answers the request. *)
Theorem revalidation_refreshes_entry :
  (forall w (h : Host TS.Job) req cached fresh,
      isEligible w req = true ->
      TS_stored (caches h) req = Some cached ->
      network w (now_ h) req = Some fresh ->
      TS.cacheable fresh = true ->
      store_full w (S (now_ h)) req fresh = false ->
      let h2 := settle TS.worker (List.length (detached h)) w
                  (snd (TS.fetch_listener req w h)) in
      detached h2 = detached h
      /\ forall w', isEligible w' req = true ->
           fst (TS.fetch_listener req w' h2) = Responded (Fulfilled fresh))
  /\ (forall w (h : Host JS.Job) req cached fresh,
      method req = "GET" ->
      JS_stored (caches h) req = Some cached ->
      only_in JS.CACHE_NAME (caches h) req ->
      network w (now_ h) req = Some fresh ->
      status fresh = 200%Z ->
      store_full w (S (now_ h)) req fresh = false ->
      let h2 := settle JS.worker (List.length (detached h)) w
                  (snd (JS.fetch_listener req w h)) in
      detached h2 = detached h
      /\ forall w', fst (JS.fetch_listener req w' h2) = Responded (Fulfilled fresh)).
Proof.
  split.
  - intros w h req cached fresh He Hhit Hnet Hc Hfull h2. subst h2.
    rewrite (TS_hit_then_settle w h req cached He Hhit), Hnet, Hc, Hfull.
    split; [reflexivity|]. intros w' He'.
    rewrite (TS_on_fetch_eligible w' _ req He'). unfold respondWith.
    rewrite (TS_handle_hit w' _ req fresh); [reflexivity|].
    unfold TS_stored. simpl. rewrite entries_set_cache_same.
    apply cache_match_store_same, (eligible_is_get w req He).
  - intros w h req cached fresh Hget Hhit Honly Hnet Hs Hfull h2. subst h2.
    rewrite (JS_hit_then_settle w h req cached Hget Hhit), Hnet, Hs, Hfull.
    split; [reflexivity|]. intros w'.
    rewrite (JS_on_fetch_get w' _ req Hget). unfold respondWith.
    rewrite (JS_handle_hit w' _ req fresh); [reflexivity|].
    unfold JS_stored. simpl. apply storage_match_written; assumption.
Qed.

Lemma revalidation_refreshes_entry_witness :
  let req := same_origin_get "/api/scans" in
  let h := boot TS.worker [(TS.CACHE_NAME, [(req, ok_basic "stale")])] in
  let h2 := settle TS.worker 0 (online "fresh")
              (snd (TS.fetch_listener req (online "fresh") h)) in
  detached h2 = []
  /\ forall w', isEligible w' req = true ->
       fst (TS.fetch_listener req w' h2) = Responded (Fulfilled (ok_basic "fresh")).
Proof.
  exact (proj1 revalidation_refreshes_entry (online "fresh")
           (boot TS.worker
              [(TS.CACHE_NAME, [(same_origin_get "/api/scans", ok_basic "stale")])])
           (same_origin_get "/api/scans") (ok_basic "stale") (ok_basic "fresh")
           eq_refl eq_refl eq_refl eq_refl eq_refl).
Defined.



(** ** MISS, store, HIT in service-worker.js *)

Lemma storage_miss_only_in cs name req :
  storage_match cs req = None -> only_in name cs req.
Proof.
  intros Hmiss n c Hin _.
  induction cs as [|[n0 c0] rest IH]; simpl in *; [contradiction|].
  destruct (cache_match c0 req) eqn:E; [discriminate|].
  destruct Hin as [Hin|Hin]; [congruence | apply IH; assumption].
Qed.

(** X6: in service-worker.js a cacheable MISS leaves the store as it was
    when the listener answers: until the pending write settles the same
    request is still a MISS.  Once that chain has settled and the store has
    accepted the write, the same request is answered from the store with the
    response that was fetched, and nothing is left pending. *)
Theorem JS_miss_store_then_hit w (h : Host JS.Job) req r :
  method req = "GET" ->
  JS_stored (caches h) req = None ->
  network w (now_ h) req = Some r ->
  JS_cacheable r = true ->
  let h1 := snd (JS.fetch_listener req w h) in
  let h2 := settle JS.worker (List.length (detached h)) w h1 in
  JS_stored (caches h1) req = None
  /\ detached h2 = detached h
  /\ (store_full w (S (now_ h)) req r = false ->
      forall w', JS.fetch_listener req w' h2
                 = (Responded (Fulfilled r),
                    mkHost (caches h2) (journal h2 ++ [Fetched req])
                           (detached h ++ [JS.Revalidate req (now_ h2)]))).
Proof.
  intros Hget Hmiss Hnet Hc h1 h2. subst h1 h2.
  unfold JS_cacheable in Hc. apply andb_true_iff in Hc. destruct Hc as [Hs Hb].
  rewrite (JS_on_fetch_get w h req Hget). unfold respondWith.
  rewrite (JS_handle_miss w h req Hmiss), Hnet, Hs, Hb. simpl.
  split; [exact Hmiss|].
  unfold settle. cbn [Job run_job JS.worker detached caches journal].
  rewrite nth_error_last, remove_nth_last.
  pose proof (set_cache_opened JS.CACHE_NAME h) as Hset.
  pose proof (entries_opened JS.CACHE_NAME h) as Hent.
  unfold JS.run_job, opened in *. unfold_sw. simpl.
  destruct (get_cache (caches h) JS.CACHE_NAME) eqn:E; simpl in *;
    rewrite length_app; simpl; rewrite Nat.add_1_r;
    destruct (store_full w (S (List.length (journal h))) req r); simpl;
    (split; [reflexivity|]); intros Hfull; try discriminate Hfull; intros w';
    rewrite (JS_on_fetch_get w' _ req Hget); unfold respondWith.
  - rewrite (JS_handle_hit w' _ req r); [reflexivity|].
    simpl. apply storage_match_written;
      [exact Hget | apply storage_miss_only_in, Hmiss].
  - rewrite (JS_handle_hit w' _ req r); [reflexivity|].
    simpl. rewrite Hset, Hent. apply storage_match_written;
      [exact Hget | apply storage_miss_only_in, Hmiss].
Qed.

Lemma JS_miss_store_then_hit_witness :
  let req := same_origin_get "/api/scans" in
  let h1 := snd (JS.fetch_listener req (online "fresh") (boot JS.worker [])) in
  let h2 := settle JS.worker 0 (online "fresh") h1 in
  JS_stored (caches h1) req = None
  /\ detached h2 = []
  /\ (false = false ->
      forall w', JS.fetch_listener req w' h2
                 = (Responded (Fulfilled (ok_basic "fresh")),
                    mkHost (caches h2) (journal h2 ++ [Fetched req])
                           ([] ++ [JS.Revalidate req (now_ h2)]))).
Proof.
  exact (JS_miss_store_then_hit (online "fresh") (boot JS.worker [])
           (same_origin_get "/api/scans") (ok_basic "fresh")
           eq_refl eq_refl eq_refl eq_refl).
Defined.

(** ** Other namespaces *)

Lemma get_cache_opened_other {J} name (h : Host J) other :
  other <> name -> get_cache (caches (opened name h)) other = get_cache (caches h) other.
Proof.
  intros Hne. unfold opened. destruct (get_cache (caches h) name); simpl;
    [reflexivity | apply get_set_cache_other, Hne].
Qed.

Lemma get_cache_write_other {J} name (h : Host J) key resp (b : bool) other :
  other <> name ->
  get_cache (if b
             then set_cache (caches (opened name h)) name
                    (cache_store (entries (caches (opened name h)) name) key resp)
             else caches (opened name h)) other
  = get_cache (caches h) other.
Proof.
  intros Hne. destruct b; [rewrite get_set_cache_other by exact Hne|];
    apply get_cache_opened_other, Hne.
Qed.

Lemma TS_step_other w other s (h : Host TS.Job) :
  other <> TS.CACHE_NAME ->
  get_cache (caches (step TS.worker w s h)) other = get_cache (caches h) other.
Proof.
  intros Hne. destruct s as [req|n]; simpl.
  - destruct (TS_intercept_cases w h req)
      as [-> | [(_ & Ec & _) | [(Ec & _) | (r & b & _ & _ & _ & _ & Ec)]]];
      try reflexivity; rewrite Ec.
    + reflexivity.
    + apply get_cache_opened_other, Hne.
    + apply get_cache_write_other, Hne.
  - unfold settle. cbn [Job run_job TS.worker].
    destruct (nth_error (detached h) n) as [[req sent]|] eqn:En; [|reflexivity].
    destruct (TS_run_job_cases w
                (mkHost (caches h) (journal h) (remove_nth n (detached h))) req sent)
      as [(Ec & _) | (r & b & _ & _ & _ & Ec)]; rewrite Ec; simpl; [reflexivity|].
    destruct b; [apply get_set_cache_other, Hne | reflexivity].
Qed.

Lemma JS_step_other w other s (h : Host JS.Job) :
  other <> JS.CACHE_NAME ->
  get_cache (caches (step JS.worker w s h)) other = get_cache (caches h) other.
Proof.
  intros Hne. destruct s as [req|n]; simpl.
  - destruct (JS_intercept_cases w h req) as [-> | (_ & Ec & _)];
      [reflexivity | rewrite Ec; reflexivity].
  - unfold settle. cbn [Job run_job JS.worker].
    destruct (nth_error (detached h) n) as [j|] eqn:En; [|reflexivity].
    destruct (JS_run_job_cases w
                (mkHost (caches h) (journal h) (remove_nth n (detached h))) j)
      as [(Ec & _) | (r & b & _ & _ & Ec)]; rewrite Ec; [reflexivity|].
    apply (get_cache_write_other JS.CACHE_NAME
             (mkHost (caches h) (journal h) (remove_nth n (detached h)))).
    exact Hne.
Qed.

Lemma cache_put_other {J} name key resp w (h : Host J) other :
  other <> name ->
  get_cache (caches (snd (cache_put name key resp w h))) other
  = get_cache (caches h) other.
Proof.
  intros Hne. unfold cache_put.
  destruct (store_full w (now_ h) key resp); simpl;
    [reflexivity | apply get_set_cache_other, Hne].
Qed.

Lemma for_each_put_other {J} name w other pairs : forall h : Host J,
  other <> name ->
  get_cache
    (caches (snd (for_each (fun rr => cache_put name (fst rr) (snd rr)) pairs w h)))
    other
  = get_cache (caches h) other.
Proof.
  induction pairs as [|[k v] pairs IH]; intros h Hne; simpl; [reflexivity|].
  unfold bind. pose proof (cache_put_other name k v w h other Hne) as Hp.
  destruct (cache_put name k v w h) as [[[]|e] h1]; simpl in *.
  - rewrite IH by exact Hne. exact Hp.
  - exact Hp.
Qed.

Lemma cache_addAll_other {J} name urls w (h : Host J) other :
  other <> name ->
  get_cache (caches (snd (cache_addAll name urls w h))) other
  = get_cache (caches h) other.
Proof.
  intros Hne. unfold cache_addAll. cbv zeta. unfold bind.
  destruct (collect_dispatch w (map (request_of_url w) urls) h) as (sents & Hf & Hc & _).
  destruct (collect fetch_dispatch (map (request_of_url w) urls) w h) as [res h1].
  simpl in Hf, Hc. subst res.
  destruct (collect_settle w (combine sents (map (request_of_url w) urls)) h1)
    as [Hs _].
  destruct (collect _ (combine sents (map (request_of_url w) urls)) w h1)
    as [[resps|e'] h2]; simpl in Hs; subst h2; simpl; [|rewrite Hc; reflexivity].
  destruct (forallb ok resps); [|unfold throw; simpl; rewrite Hc; reflexivity].
  pose proof (for_each_put_other name w other
                (combine (map (request_of_url w) urls) resps) h1 Hne) as Hp.
  destruct (for_each _ (combine (map (request_of_url w) urls) resps) w h1)
    as [[u|e'] h3]; simpl in *; [rewrite Hp | ]; rewrite Hc; reflexivity.
Qed.

Lemma TS_install_other w urls (h : Host TS.Job) other :
  other <> TS.CACHE_NAME ->
  get_cache (caches (snd (TS.install_of urls w h))) other = get_cache (caches h) other.
Proof.
  intros Hne. unfold TS.install_of, try_catch, bind. rewrite caches_open_opened.
  pose proof (cache_addAll_other TS.CACHE_NAME urls w (opened TS.CACHE_NAME h)
                other Hne) as Ha.
  destruct (cache_addAll TS.CACHE_NAME urls w (opened TS.CACHE_NAME h))
    as [[[]|e] h1]; simpl in *; rewrite Ha; apply get_cache_opened_other, Hne.
Qed.

Lemma JS_preload_loop_other w other pairs : forall h : Host JS.Job,
  other <> JS.CACHE_NAME ->
  get_cache
    (caches (snd (for_each (JS.add_caught JS.CACHE_NAME) pairs w h))) other
  = get_cache (caches h) other.
Proof.
  induction pairs as [|[s x] pairs IH]; intros h Hne; simpl; [reflexivity|].
  unfold bind.
  pose proof (JS_try_add w h s x) as (Hf & _ & _ & Hc).
  destruct (JS.add_caught JS.CACHE_NAME (s, x) w h) as [res h1].
  simpl in Hf, Hc. subst res. rewrite IH by exact Hne.
  destruct Hc as [-> | [r ->]]; [reflexivity | apply get_set_cache_other, Hne].
Qed.

Lemma JS_install_other w urls (h : Host JS.Job) other :
  other <> JS.CACHE_NAME ->
  get_cache (caches (snd (JS.install_of urls w h))) other = get_cache (caches h) other.
Proof.
  intros Hne. destruct (JS_install_of_eq w urls h) as (sents & _ & ->). simpl.
  rewrite JS_preload_loop_other by exact Hne. simpl.
  apply get_cache_opened_other, Hne.
Qed.

(** X7: the workers write to the current namespace only.  A cache of the
    origin with any other name is left exactly as it was by installation
    (whatever the PreloadSet), by every interception and by every settling
    chain, in any interleaving; in both workers.  (Only the activate
    listener of service-worker.js touches other caches, to delete them.) *)
Theorem other_namespaces_untouched other :
  other <> "nexa-security-cache-v1" ->
  (forall w steps (h : Host TS.Job),
      get_cache (caches (run TS.worker w steps h)) other = get_cache (caches h) other)
  /\ (forall w urls (h : Host TS.Job),
      get_cache (caches (snd (TS.install_of urls w h))) other
      = get_cache (caches h) other)
  /\ (forall w steps (h : Host JS.Job),
      get_cache (caches (run JS.worker w steps h)) other = get_cache (caches h) other)
  /\ (forall w urls (h : Host JS.Job),
      get_cache (caches (snd (JS.install_of urls w h))) other
      = get_cache (caches h) other).
Proof.
  intros Hne. repeat split.
  - intros w steps h.
    apply (run_preserves TS.worker w
             (fun h' => get_cache (caches h') other = get_cache (caches h) other)).
    + intros s h' Hh'. rewrite <- Hh'. apply TS_step_other, Hne.
    + reflexivity.
  - intros w urls h. apply TS_install_other, Hne.
  - intros w steps h.
    apply (run_preserves JS.worker w
             (fun h' => get_cache (caches h') other = get_cache (caches h) other)).
    + intros s h' Hh'. rewrite <- Hh'. apply JS_step_other, Hne.
    + reflexivity.
  - intros w urls h. apply JS_install_other, Hne.
Qed.

Lemma other_namespaces_untouched_witness :
  let req := same_origin_get "/api/scans" in
  let cs := [("workbox-precache", [(req, ok_basic "theirs")])] in
  get_cache
    (caches (run TS.worker (online "fresh") [Intercept req; Intercept req; Settle 0]
               (boot TS.worker cs)))
    "workbox-precache"
  = Some [(req, ok_basic "theirs")].
Proof.
  apply (proj1 (other_namespaces_untouched "workbox-precache"
                  ltac:(discriminate))
           (online "fresh")
           [Intercept (same_origin_get "/api/scans");
            Intercept (same_origin_get "/api/scans"); Settle 0]
           (boot TS.worker
              [("workbox-precache",
                [(same_origin_get "/api/scans", ok_basic "theirs")])])).
Defined.

(** ** Preloading with cache.addAll when every URL is valid *)

Lemma preload_valid_unique w u r r' :
  preload_valid w u r -> preload_valid w u r' -> r = r'.
Proof.
  intros (_ & Hn & _) (_ & Hn' & _). specialize (Hn 0). rewrite Hn' in Hn.
  congruence.
Qed.

Lemma collect_settle_valid {J} w urls : forall sents (h : Host J),
  List.length sents = List.length urls ->
  (forall u, In u urls -> exists r, preload_valid w u r) ->
  exists resps,
    fst (collect (fun sr => fetch_settle (fst sr) (snd sr))
           (combine sents (map (request_of_url w) urls)) w h) = Fulfilled resps
    /\ Forall2 (preload_valid w) urls resps.
Proof.
  induction urls as [|u urls IH]; intros [|s sents] h Hl Hall; simpl in Hl;
    try discriminate.
  - exists []. split; [reflexivity | constructor].
  - destruct (Hall u (or_introl eq_refl)) as [r Hv].
    destruct (IH sents h (eq_add_S _ _ Hl)) as (resps & Hf & Hr).
    { intros u' Hin. apply Hall. right. exact Hin. }
    exists (r :: resps). split; [|constructor; assumption].
    cbn [map combine collect].
    remember (collect (fun sr => fetch_settle (fst sr) (snd sr))
                (combine sents (map (request_of_url w) urls))) as rest eqn:Erest.
    unfold bind, fetch_settle, ret. simpl.
    destruct Hv as (_ & Hn & _). rewrite Hn.
    destruct (rest w h) as [res h1]. simpl in Hf. subst res. reflexivity.
Qed.

Lemma forallb_ok_valid w urls resps :
  Forall2 (preload_valid w) urls resps -> forallb ok resps = true.
Proof.
  induction 1 as [|u r urls resps (Hok & _) _ IH]; simpl;
    [reflexivity | rewrite Hok, IH; reflexivity].
Qed.

(** The batch of writes of [cache.addAll] over valid URLs. *)
Lemma TS_batch_valid w urls resps :
  Forall2 (preload_valid w) urls resps ->
  forall h : Host TS.Job,
    let m := for_each (fun rr => cache_put TS.CACHE_NAME (fst rr) (snd rr))
               (combine (map (request_of_url w) urls) resps) in
    fst (m w h) = Fulfilled tt
    /\ forall u r,
        preload_valid w u r ->
        In u urls \/ TS_stored (caches h) (request_of_url w u) = Some r ->
        TS_stored (caches (snd (m w h))) (request_of_url w u) = Some r.
Proof.
  induction 1 as [|x rx urls resps Hx _ IH]; intros h; cbv zeta.
  - simpl. split; [reflexivity|]. intros u r _ [[]|H]. exact H.
  - cbn [map combine for_each fst snd]. unfold bind.
    assert (Hput : cache_put TS.CACHE_NAME (request_of_url w x) rx w h
                   = (Fulfilled tt,
                      record (Put TS.CACHE_NAME (request_of_url w x) rx true)
                        (mkHost (set_cache (caches h) TS.CACHE_NAME
                                   (cache_store (entries (caches h) TS.CACHE_NAME)
                                                (request_of_url w x) rx))
                                (journal h) (detached h)))).
    { unfold cache_put. destruct Hx as (_ & _ & Hs). rewrite Hs. reflexivity. }
    rewrite Hput.
    match goal with
    | |- context [for_each ?f ?l w ?h1] => destruct (IH h1) as [IHf IHu]
    end.
    cbv zeta in IHf, IHu. split; [exact IHf|].
    intros u r Hv Hor. apply (IHu u r Hv).
    destruct (string_dec u x) as [->|Hne].
    + right. rewrite (preload_valid_unique w x r rx Hv Hx).
      unfold TS_stored. simpl. rewrite entries_set_cache_same.
      apply cache_match_store_same. reflexivity.
    + destruct Hor as [[Hx'|Hin]|Hst].
      * congruence.
      * left. exact Hin.
      * right. unfold TS_stored in *. simpl. rewrite entries_set_cache_same.
        rewrite cache_match_store_other; [exact Hst|].
        apply request_of_url_href_neq. intros E. apply Hne. symmetry. exact E.
Qed.

(** X8: the other half of all-or-nothing in service-worker.ts.  When every
    URL of the PreloadSet is valid (served with an ok response that the store
    accepts), installation completes and every one of them is in the store
    afterwards, with the response the network gave. *)
Theorem TS_preload_all_valid_stores_all w (h : Host TS.Job) urls :
  (forall u, In u urls -> exists r, preload_valid w u r) ->
  fst (TS.install_of urls w h) = Fulfilled tt
  /\ forall u r,
      In u urls -> preload_valid w u r ->
      TS_stored (caches (snd (TS.install_of urls w h))) (request_of_url w u) = Some r.
Proof.
  intros Hall. split; [apply TS_install_of_cases|].
  intros u r Hin Hv.
  unfold TS.install_of, try_catch, bind. rewrite caches_open_opened.
  unfold cache_addAll. cbv zeta. unfold bind.
  destruct (collect_dispatch w (map (request_of_url w) urls) (opened TS.CACHE_NAME h))
    as (sents & Hf & _ & Hl).
  destruct (collect fetch_dispatch (map (request_of_url w) urls) w
              (opened TS.CACHE_NAME h)) as [res h1].
  simpl in Hf. subst res. rewrite length_map in Hl.
  destruct (collect_settle_valid w urls sents h1 Hl Hall) as (resps & Hs & Hr).
  destruct (collect_settle w (combine sents (map (request_of_url w) urls)) h1)
    as [Hsame _].
  destruct (collect _ (combine sents (map (request_of_url w) urls)) w h1)
    as [res h2]. simpl in Hs, Hsame. subst res h2.
  rewrite (forallb_ok_valid w urls resps Hr).
  destruct (TS_batch_valid w urls resps Hr h1) as [Hb Hu]. cbv zeta in Hb, Hu.
  specialize (Hu u r Hv (or_introl Hin)).
  destruct (for_each _ (combine (map (request_of_url w) urls) resps) w h1)
    as [[[]|e] h3]; simpl in *; [exact Hu | discriminate Hb].
Qed.

Lemma TS_preload_all_valid_stores_all_witness :
  fst (TS.install (online "served") (boot TS.worker [])) = Fulfilled tt
  /\ forall u r,
      In u TS.urlsToCache -> preload_valid (online "served") u r ->
      TS_stored (caches (snd (TS.install (online "served") (boot TS.worker []))))
                (request_of_url (online "served") u) = Some r.
Proof.
  apply (TS_preload_all_valid_stores_all (online "served") (boot TS.worker [])
           TS.urlsToCache).
  intros u _. exists (ok_basic "served"). repeat split.
Defined.

(** ** After activation in service-worker.js *)

Lemma storage_match_current cs name q :
  NoDup (cache_names cs) ->
  storage_match (filter (fun nc => fst nc =? name) cs) q
  = cache_match (entries cs name) q.
Proof.
  unfold entries. induction cs as [|[n c] rest IH]; simpl; intros Hnd;
    [reflexivity|].
  inversion Hnd as [|? ? Hn Hrest]; subst.
  destruct (n =? name) eqn:E; simpl.
  - apply String.eqb_eq in E. subst n.
    destruct (cache_match c q); [reflexivity|].
    replace (filter (fun nc => fst nc =? name) rest) with (@nil (string * Cache));
      [reflexivity|].
    symmetry. clear IH Hnd Hrest. induction rest as [|[n' c'] rest IH]; simpl;
      [reflexivity|].
    destruct (n' =? name) eqn:E'.
    + apply String.eqb_eq in E'. subst n'. exfalso. apply Hn. left. reflexivity.
    + apply IH. intros Hin. apply Hn. right. exact Hin.
  - apply IH, Hrest.
Qed.

Lemma filter_idem {A} (f : A -> bool) l : filter f (filter f l) = filter f l.
Proof.
  rewrite filter_filter. apply filter_ext. intros x. destruct (f x); reflexivity.
Qed.

(** X9: in service-worker.js, whose lookup searches every cache of the
    origin, activation makes the current namespace the only source of
    answers: after it a lookup finds exactly what the current namespace
    holds, so an entry that lived only in a stale namespace has become a
    MISS.  Activation sends no request and writes nothing, and activating
    again changes nothing in the store. *)
Theorem JS_activation_serves_current_only w (h : Host JS.Job) :
  NoDup (cache_names (caches h)) ->
  let h' := snd (JS.activate w h) in
  (forall q, JS_stored (caches h') q
             = cache_match (entries (caches h) JS.CACHE_NAME) q)
  /\ since h h' = [ClaimedClients]
  /\ caches (snd (JS.activate w h')) = caches h'.
Proof.
  intros Hnd h'. subst h'. rewrite JS_activate_eq. simpl. split; [|split].
  - intros q. unfold JS_stored. apply storage_match_current, Hnd.
  - apply (skipn_since h). reflexivity.
  - rewrite JS_activate_eq. simpl. apply filter_idem.
Qed.

Lemma JS_activation_serves_current_only_witness :
  let req := same_origin_get "/api/scans" in
  let h := boot JS.worker
             [("nexa-security-cache-v0", [(req, ok_basic "old")]);
              (JS.CACHE_NAME, [])] in
  let h' := snd (JS.activate offline h) in
  JS_stored (caches h) req = Some (ok_basic "old")
  /\ (forall q, JS_stored (caches h') q = cache_match (entries (caches h) JS.CACHE_NAME) q)
  /\ since h h' = [ClaimedClients]
  /\ caches (snd (JS.activate offline h')) = caches h'.
Proof.
  split; [reflexivity|].
  apply (JS_activation_serves_current_only offline
           (boot JS.worker
              [("nexa-security-cache-v0",
                [(same_origin_get "/api/scans", ok_basic "old")]);
               (JS.CACHE_NAME, [])])).
  repeat constructor; simpl; intuition discriminate.
Defined.

(** ** Offline *)

Lemma TS_step_offline w s (h : Host TS.Job) :
  network_down w ->
  (forall q, TS_stored (caches (step TS.worker w s h)) q = TS_stored (caches h) q)
  /\ exists extra,
      journal (step TS.worker w s h) = journal h ++ extra /\ puts extra = [].
Proof.
  intros Hdown. destruct s as [req|n]; simpl.
  - rewrite TS_fetch_listener_eq.
    destruct (isEligible w req) eqn:He.
    2:{ split; [reflexivity|]. exists []. rewrite app_nil_r. auto. }
    unfold respondWith. destruct (TS_stored (caches h) req) as [c|] eqn:E.
    + rewrite (TS_handle_hit w h req c E). simpl.
      split; [reflexivity|]. exists [Fetched req]. auto.
    + rewrite (TS_handle_miss w h req E). cbv zeta. rewrite Hdown. simpl.
      split; [intros q; apply TS_stored_opened|].
      exists [Fetched req]. rewrite journal_opened. auto.
  - unfold settle. cbn [Job run_job TS.worker].
    destruct (nth_error (detached h) n) as [[req sent]|] eqn:En.
    2:{ split; [reflexivity|]. exists []. rewrite app_nil_r. auto. }
    unfold TS.run_job. unfold_sw. rewrite Hdown. simpl.
    split; [reflexivity|]. exists []. rewrite app_nil_r. auto.
Qed.

Lemma puts_app es es' : puts (es ++ es') = puts es ++ puts es'.
Proof.
  induction es as [|[req|n k r b| | | ] es IH]; simpl; rewrite ?IH; reflexivity.
Qed.

Lemma JS_step_offline w s (h : Host JS.Job) :
  network_down w ->
  Forall JS_is_revalidation (detached h) ->
  Forall JS_is_revalidation (detached (step JS.worker w s h))
  /\ (forall q, JS_stored (caches (step JS.worker w s h)) q = JS_stored (caches h) q)
  /\ exists extra,
      journal (step JS.worker w s h) = journal h ++ extra /\ puts extra = [].
Proof.
  intros Hdown Hjobs. destruct s as [req|n]; simpl.
  - rewrite JS_fetch_listener_eq.
    destruct (method req =? "GET") eqn:Hm.
    2:{ split; [exact Hjobs|]. split; [reflexivity|].
        exists []. rewrite app_nil_r. auto. }
    unfold respondWith. destruct (JS_stored (caches h) req) as [c|] eqn:E.
    + rewrite (JS_handle_hit w h req c E). simpl.
      split; [apply Forall_snoc; [exact Hjobs | exact I]|].
      split; [reflexivity|]. exists [Fetched req]. auto.
    + rewrite (JS_handle_miss w h req E). rewrite Hdown. simpl.
      split; [exact Hjobs|]. split; [reflexivity|]. exists [Fetched req]. auto.
  - unfold settle. cbn [Job run_job JS.worker].
    destruct (nth_error (detached h) n) as [[req sent | req r]|] eqn:En.
    + unfold JS.run_job. unfold_sw. rewrite Hdown. simpl.
      split; [apply Forall_remove_nth, Hjobs|].
      split; [reflexivity|]. exists []. rewrite app_nil_r. auto.
    + exfalso. exact (Forall_nth_error _ _ _ _ Hjobs En).
    + split; [exact Hjobs|]. split; [reflexivity|].
      exists []. rewrite app_nil_r. auto.
Qed.

Section RunOffline.
Variable W : Worker.
Variable w : World.
Variable stored : CacheStorage -> Request -> option Response.
Variable Good : Host (Job W) -> Prop.
Hypothesis StepOffline : forall s h,
  Good h ->
  Good (step W w s h)
  /\ (forall q, stored (caches (step W w s h)) q = stored (caches h) q)
  /\ exists extra, journal (step W w s h) = journal h ++ extra /\ puts extra = [].

Lemma run_offline steps : forall h,
  Good h ->
  (forall q, stored (caches (run W w steps h)) q = stored (caches h) q)
  /\ puts (since h (run W w steps h)) = [].
Proof.
  induction steps as [|s steps IH]; intros h Hg; simpl.
  - split; [reflexivity|]. unfold since, now_.
    rewrite <- (app_nil_r (journal h)) at 2. rewrite skipn_past. reflexivity.
  - destruct (StepOffline s h Hg) as (Hg1 & Hq1 & e1 & Ej1 & Hp1).
    destruct (IH (step W w s h) Hg1) as [Hq2 Hp2]. split.
    + intros q. rewrite Hq2. apply Hq1.
    + unfold since, now_ in *. rewrite Ej1 in Hp2.
      remember (journal (run W w steps (step W w s h))) as jl eqn:Ejl.
      assert (Hpre : exists e2, jl = (journal h ++ e1) ++ e2).
      { subst jl. clear -StepOffline Hg1 Ej1. revert Hg1. rewrite <- Ej1.
        generalize (step W w s h). clear Ej1.
        induction steps as [|s' steps' IH']; intros h0 Hg0; simpl.
        - exists []. rewrite app_nil_r. reflexivity.
        - destruct (StepOffline s' h0 Hg0) as (Hg' & _ & e' & Ej' & _).
          destruct (IH' _ Hg') as [e2 He2]. exists (e' ++ e2).
          rewrite He2, Ej', app_assoc. reflexivity. }
      destruct Hpre as [e2 He2]. rewrite He2 in *.
      rewrite skipn_past in Hp2. rewrite <- app_assoc, skipn_past, puts_app.
      rewrite Hp1, Hp2. reflexivity.
Qed.
End RunOffline.

(** X10: with the network down, service-worker.ts answers every eligible
    request with the stored response if there is one and with the 503
    response otherwise, after any run; service-worker.js (when the run starts
    with no MISS write pending) answers every GET request with the stored
    response if there is one and rejects otherwise.  In both workers no write
    to the store is attempted during the run and every lookup finds what it
    found at the start. *)
Theorem offline_answers_from_store w :
  network_down w ->
  (forall steps (h : Host TS.Job) req,
      isEligible w req = true ->
      fst (TS.fetch_listener req w (run TS.worker w steps h))
      = Responded (Fulfilled (match TS_stored (caches h) req with
                              | Some cached => cached
                              | None => TS.unavailable
                              end))
      /\ puts (since h (run TS.worker w steps h)) = [])
  /\ (forall steps (h : Host JS.Job) req,
      Forall JS_is_revalidation (detached h) ->
      method req = "GET" ->
      fst (JS.fetch_listener req w (run JS.worker w steps h))
      = Responded (match JS_stored (caches h) req with
                   | Some cached => Fulfilled cached
                   | None => Rejected NetworkFailure
                   end)
      /\ puts (since h (run JS.worker w steps h)) = []).
Proof.
  intros Hdown. split.
  - intros steps h req He.
    destruct (run_offline TS.worker w TS_stored (fun _ => True)
                (fun s h0 _ => conj I (TS_step_offline w s h0 Hdown)) steps h I)
      as [Hq Hp].
    split; [|exact Hp].
    rewrite (TS_on_fetch_eligible w _ req He). unfold respondWith.
    specialize (Hq req). cbn [Job TS.worker] in *.
    destruct (TS_stored (caches h) req) as [c|] eqn:E.
    + rewrite (TS_handle_hit w _ req c Hq). reflexivity.
    + rewrite (TS_handle_miss w _ req Hq). cbv zeta. rewrite Hdown. reflexivity.
  - intros steps h req Hjobs Hget.
    destruct (run_offline JS.worker w JS_stored
                (fun h0 => Forall JS_is_revalidation (detached h0))
                (fun s h0 Hg => JS_step_offline w s h0 Hdown Hg) steps h Hjobs)
      as [Hq Hp].
    split; [|exact Hp].
    rewrite (JS_on_fetch_get w _ req Hget). unfold respondWith.
    specialize (Hq req). cbn [Job JS.worker] in *.
    destruct (JS_stored (caches h) req) as [c|] eqn:E.
    + rewrite (JS_handle_hit w _ req c Hq). reflexivity.
    + rewrite (JS_handle_miss w _ req Hq). rewrite Hdown. reflexivity.
Qed.

Lemma offline_answers_from_store_witness :
  let req := same_origin_get "/api/scans" in
  let other := same_origin_get "/api/network/map" in
  let h := boot TS.worker [(TS.CACHE_NAME, [(req, ok_basic "stale")])] in
  let steps := [Intercept req; Intercept other; Settle 0] in
  (fst (TS.fetch_listener req offline (run TS.worker offline steps h))
   = Responded (Fulfilled (ok_basic "stale"))
   /\ puts (since h (run TS.worker offline steps h)) = [])
  /\ (fst (TS.fetch_listener other offline (run TS.worker offline steps h))
      = Responded (Fulfilled TS.unavailable)
      /\ puts (since h (run TS.worker offline steps h)) = []).
Proof.
  split.
  - apply (proj1 (offline_answers_from_store offline (fun _ _ => eq_refl))
             [Intercept (same_origin_get "/api/scans");
              Intercept (same_origin_get "/api/network/map"); Settle 0]
             (boot TS.worker
                [(TS.CACHE_NAME, [(same_origin_get "/api/scans", ok_basic "stale")])])
             (same_origin_get "/api/scans") eq_refl).
  - apply (proj1 (offline_answers_from_store offline (fun _ _ => eq_refl))
             [Intercept (same_origin_get "/api/scans");
              Intercept (same_origin_get "/api/network/map"); Settle 0]
             (boot TS.worker
                [(TS.CACHE_NAME, [(same_origin_get "/api/scans", ok_basic "stale")])])
             (same_origin_get "/api/network/map") eq_refl).
Defined.

(** ** What installation sends and when a worker takes control *)

Lemma traffic_only_app e1 s1 e2 s2 :
  traffic_only e1 s1 -> traffic_only e2 s2 -> traffic_only (e1 ++ e2) (s1 ++ s2).
Proof.
  intros [F1 T1] [F2 T2]. unfold traffic_only.
  rewrite fetches_app, filter_app, F1, F2, T1, T2. split; reflexivity.
Qed.

Lemma cache_put_journal {J} name key resp w (h : Host J) :
  exists b, journal (snd (cache_put name key resp w h))
            = journal h ++ [Put name key resp b].
Proof.
  unfold cache_put. destruct (store_full w (now_ h) key resp); simpl;
    [exists false | exists true]; reflexivity.
Qed.

Lemma JS_try_add_journal w (h : Host JS.Job) s u :
  exists extra,
    journal (snd (JS.add_caught JS.CACHE_NAME (s, u) w h)) = journal h ++ extra
    /\ traffic_only extra [].
Proof.
  unfold JS.add_caught, cache_add_settle. unfold_sw. simpl.
  destruct (network w s (request_of_url w u)) as [r|]; simpl.
  - destruct (ok r); simpl.
    + destruct (store_full w (List.length (journal h)) (request_of_url w u) r);
        simpl;
        [exists [Put JS.CACHE_NAME (request_of_url w u) r false]
        |exists [Put JS.CACHE_NAME (request_of_url w u) r true]];
        repeat split.
    + exists []. rewrite app_nil_r. repeat split.
  - exists []. rewrite app_nil_r. repeat split.
Qed.

Lemma JS_preload_loop_journal w pairs : forall h : Host JS.Job,
  exists extra,
    journal (snd (for_each (JS.add_caught JS.CACHE_NAME) pairs w h))
    = journal h ++ extra
    /\ traffic_only extra [].
Proof.
  induction pairs as [|[s x] pairs IH]; intros h; simpl.
  - exists []. rewrite app_nil_r. repeat split.
  - unfold bind.
    destruct (JS_try_add_journal w h s x) as (e1 & Ej1 & Ht1).
    pose proof (JS_try_add w h s x) as (Hf & _).
    destruct (JS.add_caught JS.CACHE_NAME (s, x) w h) as [res h1].
    simpl in Hf, Ej1. subst res.
    destruct (IH h1) as (e2 & Ej2 & Ht2).
    exists (e1 ++ e2). rewrite Ej2, Ej1, app_assoc. split; [reflexivity|].
    apply (traffic_only_app e1 [] e2 [] Ht1 Ht2).
Qed.

(** The journal of the install listener of service-worker.js: the requests
    of the list, then the writes, then [skipWaiting]. *)
Lemma JS_install_journal w urls (h : Host JS.Job) :
  exists extra,
    journal (snd (JS.install_of urls w h))
    = journal h ++ map Fetched (map (request_of_url w) urls) ++ extra
                ++ [SkippedWaiting]
    /\ traffic_only extra [].
Proof.
  destruct (JS_install_of_eq w urls h) as (sents & _ & ->). simpl.
  destruct (JS_preload_loop_journal w (combine sents urls)
              (mkHost (caches (opened JS.CACHE_NAME h))
                 (journal h ++ map Fetched (map (request_of_url w) urls))
                 (detached h))) as (extra & Ej & Ht).
  simpl in Ej. exists extra. split; [|exact Ht].
  rewrite Ej, <- !app_assoc. reflexivity.
Qed.

Lemma collect_dispatch_journal {J} w reqs : forall h : Host J,
  journal (snd (collect fetch_dispatch reqs w h)) = journal h ++ map Fetched reqs.
Proof.
  induction reqs as [|req reqs IH]; intros h; simpl.
  - rewrite app_nil_r. reflexivity.
  - specialize (IH (record (Fetched req) h)).
    destruct (collect_dispatch w reqs (record (Fetched req) h)) as (sents & Hf & _).
    remember (collect fetch_dispatch reqs) as rest eqn:Erest.
    unfold bind, fetch_dispatch, ret.
    destruct (rest w (record (Fetched req) h)) as [res h1].
    simpl in *. subst res. simpl. rewrite IH, <- app_assoc. reflexivity.
Qed.

Lemma traffic_only_fetched reqs : traffic_only (map Fetched reqs) reqs.
Proof.
  induction reqs as [|r reqs [IHf IHt]]; split; simpl; try reflexivity.
  - rewrite IHf. reflexivity.
  - exact IHt.
Qed.

Lemma for_each_put_journal {J} name w pairs : forall h : Host J,
  exists extra,
    journal (snd (for_each (fun rr => cache_put name (fst rr) (snd rr)) pairs w h))
    = journal h ++ extra
    /\ traffic_only extra [].
Proof.
  induction pairs as [|[k v] pairs IH]; intros h; simpl.
  - exists []. rewrite app_nil_r. repeat split.
  - unfold bind. destruct (cache_put_journal name k v w h) as [b Ej1].
    destruct (cache_put name k v w h) as [[[]|e] h1]; simpl in *.
    + destruct (IH h1) as (e2 & Ej2 & Ht2).
      exists ([Put name k v b] ++ e2). rewrite Ej2, Ej1, app_assoc.
      split; [reflexivity|].
      apply (traffic_only_app [Put name k v b] [] e2 []); [repeat split | exact Ht2].
    + exists [Put name k v b]. split; [exact Ej1 | repeat split].
Qed.

Lemma cache_addAll_journal {J} name urls w (h : Host J) :
  exists extra,
    journal (snd (cache_addAll name urls w h)) = journal h ++ extra
    /\ traffic_only extra (map (request_of_url w) urls).
Proof.
  unfold cache_addAll. cbv zeta. unfold bind.
  pose proof (collect_dispatch_journal w (map (request_of_url w) urls) h) as Ej1.
  destruct (collect_dispatch w (map (request_of_url w) urls) h) as (sents & Hf & _).
  destruct (collect fetch_dispatch (map (request_of_url w) urls) w h) as [res h1].
  simpl in Hf, Ej1. subst res.
  destruct (collect_settle w (combine sents (map (request_of_url w) urls)) h1)
    as [Hs _].
  pose proof (traffic_only_fetched (map (request_of_url w) urls)) as Ht1.
  destruct (collect _ (combine sents (map (request_of_url w) urls)) w h1)
    as [[resps|e'] h2]; simpl in Hs; subst h2; simpl.
  2:{ exists (map Fetched (map (request_of_url w) urls)). auto. }
  destruct (forallb ok resps).
  2:{ exists (map Fetched (map (request_of_url w) urls)). auto. }
  destruct (for_each_put_journal name w
              (combine (map (request_of_url w) urls) resps) h1) as (e2 & Ej2 & Ht2).
  exists (map Fetched (map (request_of_url w) urls) ++ e2).
  split.
  - destruct (for_each _ (combine (map (request_of_url w) urls) resps) w h1)
      as [[u|e'] h3]; simpl in *; rewrite Ej2, Ej1, app_assoc; reflexivity.
  - pose proof (traffic_only_app _ _ _ _ Ht1 Ht2) as Ht.
    rewrite app_nil_r in Ht. exact Ht.
Qed.

(** X11: installation attempts every URL of the PreloadSet exactly once and
    in order, whatever the outcome of each attempt: the requests put on the
    wire by the install listener are exactly those of the PreloadSet; in both
    workers. *)
Theorem install_attempts_every_preload_url :
  (forall w urls (h : Host TS.Job),
      fetches (since h (snd (TS.install_of urls w h))) = map (request_of_url w) urls)
  /\ (forall w urls (h : Host JS.Job),
      fetches (since h (snd (JS.install_of urls w h))) = map (request_of_url w) urls).
Proof.
  split; intros w urls h.
  - unfold TS.install_of, try_catch, bind. rewrite caches_open_opened.
    destruct (cache_addAll_journal TS.CACHE_NAME urls w (opened TS.CACHE_NAME h))
      as (extra & Ej & Hf & _).
    rewrite journal_opened in Ej.
    destruct (cache_addAll TS.CACHE_NAME urls w (opened TS.CACHE_NAME h))
      as [[[]|e] h1]; simpl in *; rewrite (skipn_since _ _ _ Ej); exact Hf.
  - destruct (JS_install_journal w urls h) as (extra & Ej & Hf & _).
    rewrite (skipn_since _ _ _ Ej), !fetches_app, Hf. simpl.
    rewrite app_nil_r. apply traffic_only_fetched.
Qed.



Section RunJournal.
Variable W : Worker.
Variable w : World.
Hypothesis StepQuiet : forall s h,
  exists extra,
    journal (step W w s h) = journal h ++ extra /\ filter is_takeover extra = [].

End RunJournal.


(** ** Fragments

    The store compares URLs without their fragment, in lookups and in
    writes. *)

(** With the network down, a request for /api/scans#frag is answered from
    the entry stored for /api/scans, by either worker. *)
Example fragment_request_is_answered_from_store :
  let stored := same_origin_get "/api/scans" in
  let req := same_origin_get_at "/api/scans" "#frag" in
  fst (TS.fetch_listener req offline
         (boot TS.worker [(TS.CACHE_NAME, [(stored, ok_basic "stale")])]))
  = Responded (Fulfilled (ok_basic "stale"))
  /\ fst (JS.fetch_listener req offline
            (boot JS.worker [(JS.CACHE_NAME, [(stored, ok_basic "stale")])]))
     = Responded (Fulfilled (ok_basic "stale")).
Proof. split; reflexivity. Qed.

(** Intercepting /api/scans#frag on a HIT and letting the revalidation
    settle replaces the entry stored for /api/scans: there is one entry
    afterwards, keyed by the request with the fragment, and /api/scans is
    answered with the fresh response. *)
Example fragment_write_replaces_entry :
  let stored := same_origin_get "/api/scans" in
  let req := same_origin_get_at "/api/scans" "#frag" in
  let ts := run TS.worker (online "fresh") [Intercept req; Settle 0]
              (boot TS.worker [(TS.CACHE_NAME, [(stored, ok_basic "stale")])]) in
  let js := run JS.worker (online "fresh") [Intercept req; Settle 0]
              (boot JS.worker [(JS.CACHE_NAME, [(stored, ok_basic "stale")])]) in
  caches ts = [(TS.CACHE_NAME, [(req, ok_basic "fresh")])]
  /\ existsb (rewrites stored) (journal ts) = true
  /\ TS_stored (caches ts) stored = Some (ok_basic "fresh")
  /\ caches js = [(JS.CACHE_NAME, [(req, ok_basic "fresh")])]
  /\ existsb (rewrites stored) (journal js) = true
  /\ JS_stored (caches js) stored = Some (ok_basic "fresh").
Proof. repeat split; reflexivity. Qed.

(** On a MISS the response fetched for /api/scans#frag is stored, and a
    later request for /api/scans is a HIT on it. *)
Example fragment_miss_then_hit :
  let plain := same_origin_get "/api/scans" in
  let req := same_origin_get_at "/api/scans" "#frag" in
  let ts := run TS.worker (online "fresh") [Intercept req] (boot TS.worker []) in
  TS_stored (caches ts) plain = Some (ok_basic "fresh")
  /\ fst (TS.fetch_listener plain offline ts) = Responded (Fulfilled (ok_basic "fresh")).
Proof. split; reflexivity. Qed.

(** ** A stale namespace ahead of the current one, in service-worker.js *)

Lemma set_cache_keeps_prefix pre n c rest name x :
  Forall (fun nc : string * Cache => fst nc <> name) pre ->
  n <> name ->
  set_cache (pre ++ (n, c) :: rest) name x = pre ++ (n, c) :: set_cache rest name x.
Proof.
  intros Hpre Hne. induction pre as [|[m d] pre IH]; simpl.
  - destruct (n =? name) eqn:E; [apply String.eqb_eq in E; contradiction|].
    reflexivity.
  - inversion Hpre as [|? ? Hm Hrest]; subst. simpl in Hm.
    destruct (m =? name) eqn:E; [apply String.eqb_eq in E; contradiction|].
    rewrite (IH Hrest). reflexivity.
Qed.

Lemma get_cache_skips_prefix pre n c rest name :
  Forall (fun nc : string * Cache => fst nc <> name) pre ->
  n <> name ->
  get_cache (pre ++ (n, c) :: rest) name = get_cache rest name.
Proof.
  intros Hpre Hne. induction pre as [|[m d] pre IH]; simpl.
  - destruct (n =? name) eqn:E; [apply String.eqb_eq in E; contradiction|].
    reflexivity.
  - inversion Hpre as [|? ? Hm Hrest]; subst. simpl in Hm.
    destruct (m =? name) eqn:E; [apply String.eqb_eq in E; contradiction|].
    apply IH, Hrest.
Qed.

Lemma storage_match_behind_prefix pre n c rest req cached :
  Forall (fun nc : string * Cache => cache_match (snd nc) req = None) pre ->
  cache_match c req = Some cached ->
  storage_match (pre ++ (n, c) :: rest) req = Some cached.
Proof.
  intros Hpre Hhit. induction pre as [|[m d] pre IH]; simpl.
  - rewrite Hhit. reflexivity.
  - inversion Hpre as [|? ? Hm Hrest]; subst. simpl in Hm. rewrite Hm.
    apply IH, Hrest.
Qed.

Lemma JS_step_keeps_prefix w s (h : Host JS.Job) pre n c :
  Forall (fun nc : string * Cache => fst nc <> JS.CACHE_NAME) pre ->
  n <> JS.CACHE_NAME ->
  (exists rest, caches h = pre ++ (n, c) :: rest) ->
  exists rest, caches (step JS.worker w s h) = pre ++ (n, c) :: rest.
Proof.
  intros Hpre Hne Hhead. destruct s as [req|k]; simpl.
  - destruct (JS_intercept_cases w h req) as [-> | (_ & Ec & _)];
      [exact Hhead | rewrite Ec; exact Hhead].
  - unfold settle. cbn [Job run_job JS.worker].
    destruct (nth_error (detached h) k) as [j|] eqn:En; [|exact Hhead].
    assert (Hset : forall cs x,
               (exists rest, cs = pre ++ (n, c) :: rest) ->
               exists rest, set_cache cs JS.CACHE_NAME x = pre ++ (n, c) :: rest).
    { intros cs x [rest ->]. rewrite (set_cache_keeps_prefix pre n c rest _ x Hpre Hne).
      eexists. reflexivity. }
    assert (Hopen : exists rest,
               caches (opened JS.CACHE_NAME
                         (mkHost (caches h) (journal h) (remove_nth k (detached h))))
               = pre ++ (n, c) :: rest).
    { unfold opened. simpl. destruct (get_cache (caches h) JS.CACHE_NAME); simpl;
        [exact Hhead | apply Hset, Hhead]. }
    destruct (JS_run_job_cases w
                (mkHost (caches h) (journal h) (remove_nth k (detached h))) j)
      as [(Ec & _) | (r & b & _ & _ & Ec)]; rewrite Ec; [exact Hhead|].
    destruct b; [apply Hset, Hopen | exact Hopen].
Qed.

(** X13: in service-worker.js the lookup searches every cache of the origin
    in creation order, while revalidation writes to the current cache.  So a
    response found in an older cache that precedes the current one (the
    caches before it, none of them the current one, do not answer the
    request) is never refreshed: as long as those caches exist, whatever is
    intercepted and whichever chains settle, the request keeps being
    answered with that same response. *)
Theorem JS_stale_namespace_shadows_revalidation
    w (h : Host JS.Job) pre n c rest req cached :
  caches h = pre ++ (n, c) :: rest ->
  Forall (fun nc : string * Cache =>
            fst nc <> JS.CACHE_NAME /\ cache_match (snd nc) req = None) pre ->
  n <> JS.CACHE_NAME ->
  method req = "GET" ->
  cache_match c req = Some cached ->
  forall steps,
    fst (JS.fetch_listener req w (run JS.worker w steps h))
    = Responded (Fulfilled cached).
Proof.
  intros Hc Hpre Hne Hget Hhit steps.
  assert (Hnames : Forall (fun nc : string * Cache => fst nc <> JS.CACHE_NAME) pre)
    by (eapply Forall_impl; [|exact Hpre]; intros nc [H _]; exact H).
  assert (Hmiss : Forall (fun nc : string * Cache => cache_match (snd nc) req = None) pre)
    by (eapply Forall_impl; [|exact Hpre]; intros nc [_ H]; exact H).
  destruct (run_preserves JS.worker w
              (fun h' => exists rest', caches h' = pre ++ (n, c) :: rest')
              (fun s h' => JS_step_keeps_prefix w s h' pre n c Hnames Hne) steps h)
    as [rest' Hrun]; [exists rest; exact Hc|].
  rewrite (JS_on_fetch_get w _ req Hget). unfold respondWith.
  cbn [Job JS.worker] in *.
  rewrite (JS_handle_hit w _ req cached); [reflexivity|].
  unfold JS_stored. rewrite Hrun.
  apply storage_match_behind_prefix; assumption.
Qed.

Lemma JS_stale_namespace_shadows_revalidation_witness :
  let req := same_origin_get "/api/scans" in
  let h := boot JS.worker
             [("fonts", [(same_origin_get "/font.woff2", ok_basic "font")]);
              ("nexa-security-cache-v0", [(req, ok_basic "old")]);
              (JS.CACHE_NAME, [(req, ok_basic "stale")])] in
  fst (JS.fetch_listener req (online "fresh")
         (run JS.worker (online "fresh") [Intercept req; Settle 0; Intercept req] h))
  = Responded (Fulfilled (ok_basic "old")).
Proof.
  apply (JS_stale_namespace_shadows_revalidation (online "fresh")
           (boot JS.worker
              [("fonts", [(same_origin_get "/font.woff2", ok_basic "font")]);
               ("nexa-security-cache-v0",
                [(same_origin_get "/api/scans", ok_basic "old")]);
               (JS.CACHE_NAME, [(same_origin_get "/api/scans", ok_basic "stale")])])
           [("fonts", [(same_origin_get "/font.woff2", ok_basic "font")])]
           "nexa-security-cache-v0"
           [(same_origin_get "/api/scans", ok_basic "old")]
           [(JS.CACHE_NAME, [(same_origin_get "/api/scans", ok_basic "stale")])]
           (same_origin_get "/api/scans") (ok_basic "old")).
  - reflexivity.
  - constructor; [split; [discriminate | reflexivity] | constructor].
  - discriminate.
  - reflexivity.
  - reflexivity.
Defined.

(** ** Registering the worker *)

Lemma listeners_register_fold b (ls : list nat) : forall p,
  let q := fold_left (fun q _ => Registration.registerServiceWorker b q) ls p in
  Registration.registered q = Registration.registered p
  /\ Registration.load_listeners q = Registration.load_listeners p
  /\ List.length (Registration.timers q)
     = List.length (Registration.timers p)
       + (if Registration.serviceWorker_in_navigator b then List.length ls else 0).
Proof.
  induction ls as [|l ls IH]; intros p; cbv zeta; simpl.
  - repeat split. destruct (Registration.serviceWorker_in_navigator b); lia.
  - destruct (IH (Registration.registerServiceWorker b p)) as (Hr & Hl & Ht).
    cbv zeta in Hr, Hl, Ht. rewrite Hr, Hl, Ht.
    unfold Registration.registerServiceWorker, Registration.scheduleRegistration.
    destruct (Registration.serviceWorker_in_navigator b);
      [destruct (Registration.requestIdleCallback_in_window b)|]; simpl;
      rewrite ?length_app; simpl; repeat split; lia.
Qed.

Lemma remove_nth_length {A} n : forall (xs : list A) x,
  nth_error xs n = Some x -> S (List.length (remove_nth n xs)) = List.length xs.
Proof.
  induction n as [|n IH]; intros [|y xs] x H; simpl in *; try discriminate;
    [reflexivity | f_equal; apply (IH xs x H)].
Qed.

Lemma filter_length_le {A} (f : A -> bool) l :
  List.length (filter f l) <= List.length l.
Proof.
  induction l as [|x l IH]; simpl; [lia | destruct (f x); simpl; lia].
Qed.

(** What a dispatch of 'load' does to the counts: one callback scheduled per
    attached listener (none without support), the listeners stay. *)
Lemma dispatch_load_counts b p :
  let q := Registration.dispatch_load b p in
  Registration.registered q = Registration.registered p
  /\ Registration.load_listeners q = Registration.load_listeners p
  /\ List.length (Registration.timers q)
     = List.length (Registration.timers p)
       + (if Registration.serviceWorker_in_navigator b
          then List.length (Registration.load_listeners p) else 0).
Proof.
  cbv zeta. unfold Registration.dispatch_load.
  destruct (listeners_register_fold b (Registration.load_listeners p)
              (Registration.mkPage (Registration.complete p) true
                 (Registration.load_listeners p)
                 (Registration.timers p) (Registration.registered p)))
    as (Hr & Hl & Ht).
  cbv zeta in Hr, Hl, Ht. rewrite Hr, Hl, Ht. simpl. repeat split.
Qed.

(** One event other than 'load' adds at most one registration or listener,
    and only a mount can add one; a 'load' adds at most one registration per
    attached listener. *)
Lemma registration_step_bound b e p :
  let q := Registration.step b e p in
  List.length (Registration.load_listeners q)
  <= List.length (Registration.load_listeners p)
     + (if Registration.is_mount e then 1 else 0)
  /\ Registration.made q
     <= Registration.made p
        + (if Registration.is_load e
           then List.length (Registration.load_listeners p)
           else if Registration.is_mount e then 1 else 0)
  /\ (Registration.is_load e = false ->
      Registration.made q + List.length (Registration.load_listeners q)
      <= Registration.made p + List.length (Registration.load_listeners p)
         + (if Registration.is_mount e then 1 else 0)).
Proof.
  cbv zeta. unfold Registration.made.
  destruct e as [i | i | | | n]; simpl.
  - unfold Registration.effect, Registration.registerServiceWorker,
      Registration.scheduleRegistration.
    destruct (Registration.complete p);
      [destruct (Registration.serviceWorker_in_navigator b);
       [destruct (Registration.requestIdleCallback_in_window b)|]|]; simpl;
      rewrite ?length_app; simpl; lia.
  - pose proof (filter_length_le (fun j => negb (Nat.eqb j i))
                  (Registration.load_listeners p)).
    lia.
  - lia.
  - destruct (dispatch_load_counts b p) as (Hr & Hl & Ht).
    cbv zeta in Hr, Hl, Ht. rewrite Hr, Hl, Ht.
    destruct (Registration.serviceWorker_in_navigator b);
      (repeat split; [lia | lia | discriminate]).
  - unfold Registration.fire.
    destruct (nth_error (Registration.timers p) n) as [t|] eqn:En; [|lia].
    simpl. rewrite length_app. simpl.
    pose proof (remove_nth_length n (Registration.timers p) t En).
    lia.
Qed.

Lemma registration_scripts b e p :
  Forall (fun s => s = "/service-worker.js") (Registration.registered p) ->
  Forall (fun s => s = "/service-worker.js")
         (Registration.registered (Registration.step b e p)).
Proof.
  intros H. destruct e as [i | i | | | n]; simpl; try exact H.
  - unfold Registration.effect, Registration.registerServiceWorker,
      Registration.scheduleRegistration.
    destruct (Registration.complete p);
      [destruct (Registration.serviceWorker_in_navigator b);
       [destruct (Registration.requestIdleCallback_in_window b)|]|]; exact H.
  - destruct (dispatch_load_counts b p) as (Hr & _).
    cbv zeta in Hr. rewrite Hr. exact H.
  - unfold Registration.fire.
    destruct (nth_error (Registration.timers p) n); [|exact H].
    simpl. apply Forall_snoc; [exact H | reflexivity].
Qed.

(** Without a mount and without a listener nothing is ever scheduled. *)
Lemma no_mount_no_growth b events : forall p,
  forallb (fun e => negb (Registration.is_mount e)) events = true ->
  Registration.load_listeners p = [] ->
  Registration.made (Registration.run b events p) <= Registration.made p.
Proof.
  induction events as [|e events IH]; intros p Hnm Hl; simpl in *; [lia|].
  apply andb_true_iff in Hnm. destruct Hnm as [He Hrest].
  pose proof (registration_step_bound b e p) as (Hls & Hstep & _).
  cbv zeta in Hls, Hstep.
  rewrite Hl in Hls, Hstep. simpl in Hls, Hstep.
  destruct (Registration.is_mount e); [discriminate|].
  assert (Hl' : Registration.load_listeners (Registration.step b e p) = [])
    by (apply length_zero_iff_nil; lia).
  specialize (IH (Registration.step b e p) Hrest Hl').
  destruct (Registration.is_load e); lia.
Qed.

(** With no 'load' among the events only mounts add registrations. *)
Lemma no_load_bound b events : forall p,
  Registration.loads events = 0 ->
  Registration.made (Registration.run b events p)
  <= Registration.made p + Registration.mounts events.
Proof.
  unfold Registration.loads, Registration.mounts.
  induction events as [|e events IH]; intros p Hl; simpl in *; [lia|].
  pose proof (registration_step_bound b e p) as (_ & Hstep & _).
  cbv zeta in Hstep.
  destruct (Registration.is_load e); [simpl in Hl; discriminate|].
  specialize (IH (Registration.step b e p) Hl).
  destruct (Registration.is_mount e); simpl; lia.
Qed.

(** X14: the component registers one script only, /service-worker.js.  The
    calls to [register] made or scheduled grow by at most one per mount and,
    at each dispatch of the 'load' event, by one per listener attached at
    that moment (the listeners are not removed by the event).  So while
    'load' is dispatched at most once, as the browser itself does, there are
    never more of them than mounts, listeners attached at the start
    included; a 'load' dispatched again makes the attached listeners
    register again. *)
Theorem registrations_bounded_by_mounts b events : forall p,
  Forall (fun s => s = "/service-worker.js") (Registration.registered p) ->
  Forall (fun s => s = "/service-worker.js")
         (Registration.registered (Registration.run b events p))
  /\ Registration.made (Registration.run b events p)
     <= Registration.made p + Registration.mounts events
        + Registration.loads events
          * (List.length (Registration.load_listeners p) + Registration.mounts events)
  /\ (Registration.loads events <= 1 ->
      Registration.made (Registration.run b events p)
      <= Registration.made p + List.length (Registration.load_listeners p)
         + Registration.mounts events).
Proof.
  induction events as [|e events IH]; intros p Hs.
  - simpl. repeat split; [exact Hs | lia | lia].
  - destruct (IH (Registration.step b e p) (registration_scripts b e p Hs))
      as (Hs' & Hgen & Hone).
    pose proof (registration_step_bound b e p) as (Hls & Hstep & Hjoint).
    pose proof (no_load_bound b events (Registration.step b e p)) as Hnone.
    cbv zeta in Hls, Hstep, Hjoint.
    unfold Registration.mounts, Registration.loads in *.
    simpl. split; [exact Hs'|].
    destruct (Registration.is_load e) eqn:El.
    + assert (Em : Registration.is_mount e = false) by (destruct e; auto; discriminate).
      rewrite Em in *. simpl. split; [nia|].
      intros H1.
      assert (H0 : List.length (filter Registration.is_load events) = 0) by lia.
      specialize (Hnone H0). lia.
    + specialize (Hjoint eq_refl).
      destruct (Registration.is_mount e); simpl;
        (split; [nia | intros H1; specialize (Hone H1); lia]).
Qed.

Lemma registrations_bounded_by_mounts_witness :
  let b := Registration.mkBrowser true false in
  let events := [Registration.Mount 0; Registration.Load; Registration.Fire 0;
                 Registration.Load; Registration.Fire 0] in
  let p := Registration.fresh false false in
  Forall (fun s => s = "/service-worker.js")
         (Registration.registered (Registration.run b events p))
  /\ Registration.made (Registration.run b events p)
     <= Registration.made p + Registration.mounts events
        + Registration.loads events
          * (List.length (Registration.load_listeners p) + Registration.mounts events)
  /\ (Registration.loads events <= 1 ->
      Registration.made (Registration.run b events p)
      <= Registration.made p + List.length (Registration.load_listeners p)
         + Registration.mounts events).
Proof.
  apply (registrations_bounded_by_mounts (Registration.mkBrowser true false)
           [Registration.Mount 0; Registration.Load; Registration.Fire 0;
            Registration.Load; Registration.Fire 0]
           (Registration.fresh false false)).
  constructor.
Defined.

(** One mounted instance and the 'load' event dispatched twice: the listener
    is still attached at the second dispatch and registers a second time. *)
Example load_dispatched_twice_registers_twice :
  Registration.run (Registration.mkBrowser true false)
    [Registration.Mount 0; Registration.Load; Registration.Fire 0;
     Registration.Load; Registration.Fire 0]
    (Registration.fresh false false)
  = Registration.mkPage false true [0] []
      ["/service-worker.js"; "/service-worker.js"].
Proof. reflexivity. Qed.

(** X15: without service-worker support in the browser the component never
    registers and never schedules anything, whatever happens to the page. *)
Theorem no_support_never_registers b events : forall p,
  Registration.serviceWorker_in_navigator b = false ->
  Registration.timers p = [] ->
  Registration.registered (Registration.run b events p) = Registration.registered p
  /\ Registration.timers (Registration.run b events p) = [].
Proof.
  induction events as [|e events IH]; intros p Hno Ht; simpl; [auto|].
  assert (Hstep : Registration.registered (Registration.step b e p)
                  = Registration.registered p
                  /\ Registration.timers (Registration.step b e p) = []).
  { destruct e as [i | i | | | n]; simpl; auto.
    - unfold Registration.effect, Registration.registerServiceWorker.
      rewrite Hno. destruct (Registration.complete p); auto.
    - destruct (dispatch_load_counts b p) as (Hr & _ & Hl).
      cbv zeta in Hr, Hl. split; [exact Hr|].
      apply length_zero_iff_nil. rewrite Hl, Hno, Ht. reflexivity.
    - unfold Registration.fire. rewrite Ht. destruct n; simpl; auto. }
  destruct Hstep as [Hr Ht'].
  destruct (IH (Registration.step b e p) Hno Ht') as [Hr2 Ht2].
  split; [rewrite Hr2; exact Hr | exact Ht2].
Qed.

Lemma no_support_never_registers_witness :
  let b := Registration.mkBrowser false true in
  let events := [Registration.Mount 0; Registration.Load; Registration.Fire 0] in
  Registration.registered (Registration.run b events (Registration.fresh false false))
  = []
  /\ Registration.timers (Registration.run b events (Registration.fresh false false))
     = [].
Proof.
  apply (no_support_never_registers (Registration.mkBrowser false true)
           [Registration.Mount 0; Registration.Load; Registration.Fire 0]
           (Registration.fresh false false)); reflexivity.
Defined.

(** X16: an instance that is unmounted before the page has finished loading
    never registers the worker: after its cleanup, whatever happens to the
    page short of another mount, no registration is made or scheduled. *)
Theorem unmount_before_load_cancels b i events :
  forallb (fun e => negb (Registration.is_mount e)) events = true ->
  let p := Registration.run b
             (Registration.Mount i :: Registration.Unmount i :: events)
             (Registration.fresh false false) in
  Registration.registered p = [] /\ Registration.timers p = [].
Proof.
  intros Hnm p.
  assert (Hb : Registration.made p <= 0).
  { assert (Hstart : p = Registration.run b events
                           (Registration.mkPage false false [] [] [])).
    { subst p. unfold Registration.run, Registration.fresh. cbn [fold_left].
      unfold Registration.step at 2 3, Registration.effect, Registration.cleanup.
      cbn. rewrite Nat.eqb_refl. reflexivity. }
    rewrite Hstart.
    apply (no_mount_no_growth b events
             (Registration.mkPage false false [] [] []) Hnm). reflexivity. }
  unfold Registration.made in Hb.
  destruct (Registration.registered p); [|simpl in Hb; lia].
  destruct (Registration.timers p); [auto | simpl in Hb; lia].
Qed.

Lemma unmount_before_load_cancels_witness :
  let b := Registration.mkBrowser true true in
  let p := Registration.run b
             [Registration.Mount 7; Registration.Unmount 7; Registration.ReadyComplete;
              Registration.Load; Registration.Fire 0]
             (Registration.fresh false false) in
  Registration.registered p = [] /\ Registration.timers p = [].
Proof.
  apply (unmount_before_load_cancels (Registration.mkBrowser true true) 7
           [Registration.ReadyComplete; Registration.Load; Registration.Fire 0]).
  reflexivity.
Defined.

(** ** The API error handler *)

(** X17: [handleApiError] shows exactly one toast and writes one console
    entry with the same text, and that text is never empty: it is the first
    non-empty one among the response's message, the response's detail and
    the error's own message, and the fixed default when all three are
    missing or empty. *)
Theorem handleApiError_text_is_never_empty error ui :
  exists text,
    Api.toasts (Api.handleApiError error ui) = Api.toasts ui ++ [text]
    /\ Api.console (Api.handleApiError error ui)
       = Api.console ui
           ++ [(option_map Api.status (Api.response error), text,
                Api.config_url error)]
    /\ text <> ""
    /\ Some text
       = hd (Some "An unexpected error occurred")
            (filter Api.nonempty (Api.candidates error)).
Proof.
  unfold Api.handleApiError, Api.candidates. cbv zeta.
  destruct (Api.response error) as [[st [[m d]|]]|]; simpl.
  - destruct m as [m|]; simpl.
    + destruct (m =? "") eqn:Em; simpl.
      * destruct d as [d|]; simpl.
        -- destruct (d =? "") eqn:Ed; simpl.
           ++ destruct (Api.error_message error =? "") eqn:Ee; simpl;
                eexists; repeat split; try discriminate.
              apply String.eqb_neq, Ee.
           ++ eexists; repeat split. apply String.eqb_neq, Ed.
        -- destruct (Api.error_message error =? "") eqn:Ee; simpl;
             eexists; repeat split; try discriminate.
           apply String.eqb_neq, Ee.
      * eexists; repeat split. apply String.eqb_neq, Em.
    + destruct d as [d|]; simpl.
      * destruct (d =? "") eqn:Ed; simpl.
        -- destruct (Api.error_message error =? "") eqn:Ee; simpl;
             eexists; repeat split; try discriminate.
           apply String.eqb_neq, Ee.
        -- eexists; repeat split. apply String.eqb_neq, Ed.
      * destruct (Api.error_message error =? "") eqn:Ee; simpl;
          eexists; repeat split; try discriminate.
        apply String.eqb_neq, Ee.
  - destruct (Api.error_message error =? "") eqn:Ee; simpl;
      eexists; repeat split; try discriminate.
    apply String.eqb_neq, Ee.
  - destruct (Api.error_message error =? "") eqn:Ee; simpl;
      eexists; repeat split; try discriminate.
    apply String.eqb_neq, Ee.
Qed.
